(** * NSIGII sparse framework: a shallow embedding of the two engine files

    [nsigii_dimensional.c] (module [Dim]) and [nsigii_minimal.c] (module
    [Minimal]).  C [double] is Rocq's primitive binary64 [float]; C [int]
    is [Z]; fixed-size C arrays are lists updated with stdpp's [<[i:=x]>].
    The C library functions the code calls ([sin], [rand]) are parameters
    of the model; concrete instances are given for evaluation. *)

Set Warnings "-inexact-float".
From Stdlib Require Import ZArith Floats Lia.
From stdpp Require Import base list.

Open Scope Z_scope.

(** ** Shared C helpers *)

(** Conversion of a C [int] to [double] (exact for |z| < 2^53). *)
Definition double_of_int (z : Z) : float :=
  if z <? 0 then (- of_uint63 (Uint63.of_Z (- z)))%float
  else of_uint63 (Uint63.of_Z z).

(** [0 .. n-1] as C loop counters. *)
Definition zrange (n : nat) : list Z := map Z.of_nat (seq 0 n).

(** ** The C library *)

(** glibc's [random_r] (TYPE_3, the default generator behind [rand]):
    a window of the last 34 outputs of the additive feedback register. *)
Module Glibc.

Definition RAND_MAX : Z := 2147483647.

(** [r[i] = 16807 * r[i-1] mod (2^31 - 1)], the seeding recurrence. *)
Fixpoint seed_words (fuel : nat) (prev : Z) : list Z :=
  match fuel with
  | O => []
  | S f => let w := (16807 * prev) mod 2147483647 in w :: seed_words f w
  end.

(** One step of [r[i] = r[i-31] + r[i-3]] (mod 2^32); the output is [r[i] >> 1]. *)
Definition step (win : list Z) : Z * list Z :=
  let a := default 0 (win !! 3%nat) in       (* r[i-31] *)
  let b := default 0 (win !! 31%nat) in      (* r[i-3]  *)
  let w := (a + b) mod 4294967296 in
  (Z.shiftr w 1, drop 1 win ++ [w]).

Fixpoint discard (n : nat) (win : list Z) : list Z :=
  match n with O => win | S m => discard m (snd (step win)) end.

(** [srand(seed)]: r[0..30] from the recurrence, r[31..33] copied, 310 outputs dropped. *)
Definition srand (seed : Z) : list Z :=
  let r := seed :: seed_words 30 seed in
  discard 310 (r ++ take 3 r).

Definition rand (win : list Z) : Z * list Z := step win.

End Glibc.


(** A libm-style [sin] for evaluation: reduction to [-pi, pi] and a
    Taylor polynomial of degree 25. *)
Module Libm.

Definition PI : float := 0x1.921fb54442d18p+1.
Definition TWO_PI : float := 0x1.921fb54442d18p+2.

Fixpoint reduce (fuel : nat) (x : float) : float :=
  match fuel with
  | O => x
  | S f =>
      if (PI <? x)%float then reduce f (x - TWO_PI)%float
      else if (x <? - PI)%float then reduce f (x + TWO_PI)%float
      else x
  end.

Fixpoint taylor (n : nat) (m : float) (x2 term acc : float) : float :=
  match n with
  | O => acc
  | S n' =>
      let term' := (- term * x2 / ((m + 1) * (m + 2)))%float in
      taylor n' (m + 2)%float x2 term' (acc + term')%float
  end.

Definition sin (x : float) : float :=
  let r := reduce 64 x in taylor 12 1 (r * r)%float r r.

End Libm.


(** ** nsigii_dimensional.c *)
Module Dim.

Definition GRID_SIZE : Z := 10.
Definition SPARSE_FACTOR : Z := 4.
Definition ACTIVE_SIZE : Z := (GRID_SIZE * GRID_SIZE * GRID_SIZE) / SPARSE_FACTOR.
Definition HARMONICS : Z := 9.
Definition MAX_DERIVATIVES : Z := 5.
Definition M_PI : float := 0x1.921fb54442d18p+1.

Inductive ColorChannel := RED | GREEN | BLUE | CYAN.

(** The enum's integer value, used as the second array index. *)
Definition ch_num (c : ColorChannel) : nat :=
  match c with RED => 0 | GREEN => 1 | BLUE => 2 | CYAN => 3 end.

Record TomographicIndex := mkIndex {
  ti_i : Z; ti_j : Z; ti_k : Z;
  permutations : list (Z * Z * Z)   (* int permutations[6][3] *)
}.

Record DerivativeNode := mkDeriv {
  d_value : float;
  order : Z;
  trace : list float;               (* double trace[5] *)
  terminated : bool
}.

Record SparseNode := mkNode {
  value : float;
  channel : ColorChannel;
  active : bool;
  idx : TomographicIndex;
  deriv : DerivativeNode;
  entropy : float;
  polarity : float
}.

(** [SparseNode grid[ACTIVE_SIZE][4]]: a row per slot, a node per channel. *)
Abbreviation Grid := (list (list SparseNode)).

(** All-zero contents, as a zero-initialised C object holds them. *)
Definition zero_index : TomographicIndex := mkIndex 0 0 0 (replicate 6 (0, 0, 0)).
Definition zero_deriv : DerivativeNode := mkDeriv 0 0 (replicate 5 0%float) false.
Definition zero_node : SparseNode := mkNode 0 RED false zero_index zero_deriv 0 0.
Definition zero_grid : Grid :=
  replicate (Z.to_nat ACTIVE_SIZE) (replicate 4 zero_node).

(** Field writes [node.f = v]. *)
Definition set_value (n : SparseNode) v :=
  mkNode v n.(channel) n.(active) n.(idx) n.(deriv) n.(entropy) n.(polarity).
Definition set_channel (n : SparseNode) c :=
  mkNode n.(value) c n.(active) n.(idx) n.(deriv) n.(entropy) n.(polarity).
Definition set_active (n : SparseNode) b :=
  mkNode n.(value) n.(channel) b n.(idx) n.(deriv) n.(entropy) n.(polarity).
Definition set_idx (n : SparseNode) x :=
  mkNode n.(value) n.(channel) n.(active) x n.(deriv) n.(entropy) n.(polarity).
Definition set_deriv (n : SparseNode) d :=
  mkNode n.(value) n.(channel) n.(active) n.(idx) d n.(entropy) n.(polarity).
Definition set_entropy (n : SparseNode) e :=
  mkNode n.(value) n.(channel) n.(active) n.(idx) n.(deriv) e n.(polarity).
Definition set_polarity (n : SparseNode) p :=
  mkNode n.(value) n.(channel) n.(active) n.(idx) n.(deriv) n.(entropy) p.

(** [grid[i][ch]] read (a row or node outside the array reads as zero;
    every access of the code is in bounds) and write. *)
Definition node_at (row : list SparseNode) (ch : nat) : SparseNode :=
  default zero_node (row !! ch).
Definition get (g : Grid) (i ch : nat) : SparseNode :=
  node_at (default [] (g !! i)) ch.

(** init_tomographic_index: the six orderings ijk, jik, ikj, jki, kij, kji. *)
Definition init_tomographic_index (i j k : Z) : TomographicIndex :=
  mkIndex i j k [(i, j, k); (j, i, k); (i, k, j); (j, k, i); (k, i, j); (k, j, i)].

(** trace_derivative: every field of the node is written, so the result
    is a fresh node.  The first two writes ([node->value = initial],
    [node->trace[0] = initial]) are overwritten before any read. *)
Definition trace_derivative (initial time : float) : DerivativeNode :=
  let c0 := 4%float in let c1 := 3%float in let c2 := 2%float in let c3 := 1%float in
  let t0 := 1%float in let t1 := time in let t2 := (time * time)%float in
  let t3 := (time * time * time)%float in
  let v := (0 + c0 * t0 + c1 * t1 + c2 * t2 + c3 * t3)%float in
  let d1 := (c1 + 2 * c2 * time + 3 * c3 * time * time)%float in
  let d2 := (2 * c2 + 6 * c3 * time)%float in
  let d3 := (6 * c3)%float in
  let d4 := 0%float in
  mkDeriv v 4 [v; d1; d2; d3; d4] (abs d4 <? 1e-10)%float.

Section Engine.

(** The C library: [sin] from libm, [rand] with its hidden state. *)
Variable sin : float -> float.
Context {RandState : Type}.
Variable rand : RandState -> Z * RandState.

(** fourier_square: [for (n = 1; n <= harmonics; n += 2) result += sin(n*x)/n]. *)
Fixpoint fourier_loop (fuel : nat) (x : float) (harmonics n : Z) (result : float) : float :=
  match fuel with
  | O => result
  | S f =>
      if n <=? harmonics then
        fourier_loop f x harmonics (n + 2)
          (result + sin (double_of_int n * x) / double_of_int n)%float
      else result
  end.

Definition fourier_square (x : float) (harmonics : Z) : float :=
  ((4 / M_PI) * fourier_loop (Z.to_nat harmonics + 1) x harmonics 1 0)%float.

(** [0.5 + (double)rand() / RAND_MAX * 0.5] *)
Definition rand_entropy (rs : RandState) : float * RandState :=
  let (r, rs') := rand rs in
  ((0.5 + double_of_int r / double_of_int Glibc.RAND_MAX * 0.5)%float, rs').

(** One iteration of the [i, j, k] loops of init_sparse_grid, on the
    grid, [linear_idx] and the generator. *)
Definition init_step (st : Grid * Z * RandState) (ijk : Z * Z * Z) : Grid * Z * RandState :=
  let '(g, linear_idx, rs) := st in
  let '(i, j, k) := ijk in
  if (Z.rem (i + j + k) SPARSE_FACTOR =? 0) && (linear_idx <? ACTIVE_SIZE) then
    let row := default [] (g !! Z.to_nat linear_idx) in
    let s := double_of_int (i + j + k) in
    let (er, rs1) := rand_entropy rs in
    let red := set_idx (set_polarity (set_entropy (set_channel (set_active
                 (set_value (node_at row 0) (fourier_square s HARMONICS))
                 true) RED) er) 1.0) (init_tomographic_index i j k) in
    let (eg, rs2) := rand_entropy rs1 in
    let green := set_polarity (set_entropy (set_channel (set_active
                   (set_value (node_at row 1) (fourier_square (s + 0.5)%float HARMONICS))
                   true) GREEN) eg) (-1.0)%float in
    let (eb, rs3) := rand_entropy rs2 in
    let blue := set_polarity (set_entropy (set_channel (set_active
                  (set_value (node_at row 2) (fourier_square (s + 1.0)%float HARMONICS))
                  true) BLUE) eb) 0.0 in
    let cyan := set_polarity (set_entropy (set_channel (set_active
                  (set_value (node_at row 3) ((red.(value) + green.(value)) / 2.0)%float)
                  true) CYAN) ((red.(entropy) + green.(entropy)) / 2.0)%float) 0.0 in
    let time_base := (double_of_int (i + j + k) * 0.1)%float in
    let red := set_deriv red (trace_derivative red.(value) time_base) in
    let green := set_deriv green (trace_derivative green.(value) time_base) in
    let blue := set_deriv blue (trace_derivative blue.(value) time_base) in
    let cyan := set_deriv cyan (trace_derivative cyan.(value) time_base) in
    let row := <[3%nat := cyan]> (<[2%nat := blue]> (<[1%nat := green]> (<[0%nat := red]> row))) in
    (<[Z.to_nat linear_idx := row]> g, linear_idx + 1, rs3)
  else (g, linear_idx, rs).

(** The loop order [for i { for j { for k } }]. *)
Definition loop_triples : list (Z * Z * Z) :=
  i ← zrange (Z.to_nat GRID_SIZE); j ← zrange (Z.to_nat GRID_SIZE);
  k ← zrange (Z.to_nat GRID_SIZE); [(i, j, k)].

(** init_sparse_grid on the grid's previous contents [g]: slots it does
    not reach keep what they held. *)
Definition init_sparse_grid (g : Grid) (rs : RandState) : Grid * RandState :=
  let '(g', _, rs') := foldl init_step (g, 0, rs) loop_triples in (g', rs').

(** What one call of nsigii_verification_cycle leaves behind: the grid,
    the generator, the per-channel [active_count] and [total_entropy]. *)
Record CycleOut := mkCycleOut {
  co_grid : Grid;
  co_rand : RandState;
  active_count : list Z;
  total_entropy : float
}.

(** The body of the inner loop for [grid[i][ch]]. *)
Definition cycle_node (cycle i : Z) (ch : nat) (n : SparseNode)
    (st : RandState * list Z * float) : SparseNode * (RandState * list Z * float) :=
  let '(rs, counts, total) := st in
  if n.(active) then
    let counts := <[ch := default 0 (counts !! ch) + 1]> counts in
    let phase := (double_of_int cycle * 0.1 + double_of_int i * 0.01)%float in
    let n := set_value n (fourier_square phase (HARMONICS + Z.rem cycle 5)) in
    let n := set_deriv n (trace_derivative n.(value) phase) in
    let (r, rs') := rand rs in
    let noise := (double_of_int r / double_of_int Glibc.RAND_MAX * 0.1 - 0.05)%float in
    let n := set_entropy n (0.5 + abs n.(value) * 0.3 + noise)%float in
    (n, (rs', counts, (total + n.(entropy))%float))
  else (n, st).

Fixpoint cycle_row (cycle i : Z) (ch : nat) (row : list SparseNode)
    (st : RandState * list Z * float) : list SparseNode * (RandState * list Z * float) :=
  match row with
  | [] => ([], st)
  | n :: row' =>
      let (n', st1) := cycle_node cycle i ch n st in
      let (row'', st2) := cycle_row cycle i (S ch) row' st1 in
      (n' :: row'', st2)
  end.

Fixpoint cycle_grid (cycle i : Z) (g : Grid)
    (st : RandState * list Z * float) : Grid * (RandState * list Z * float) :=
  match g with
  | [] => ([], st)
  | row :: g' =>
      let (row', st1) := cycle_row cycle i 0 row st in
      let (g'', st2) := cycle_grid cycle (i + 1) g' st1 in
      (row' :: g'', st2)
  end.

(** nsigii_verification_cycle (the refresh): [active_count] starts at
    [{0}], [total_entropy] at [0.0]. *)
Definition nsigii_verification_cycle (g : Grid) (cycle : Z) (rs : RandState) : CycleOut :=
  let '(g', (rs', counts, total)) := cycle_grid cycle 0 g (rs, [0; 0; 0; 0], 0%float) in
  mkCycleOut g' rs' counts total.

(** main's loop [for (cycle = 0; cycle < n; cycle++)] of refreshes,
    with what each refresh leaves behind. *)
Fixpoint run_cycles (g : Grid) (rs : RandState) (cycle : Z) (n : nat) : list CycleOut :=
  match n with
  | O => []
  | S m =>
      let o := nsigii_verification_cycle g cycle rs in
      o :: run_cycles o.(co_grid) o.(co_rand) (cycle + 1) m
  end.

End Engine.

(** ** Observers of the dimensional grid *)

(** The activity flags, slot by slot and channel by channel. *)
Definition active_flags (g : Grid) : list (list bool) := map (map active) g.

(** The number of slots whose [ch] cell is active. *)
Definition count_active (ch : ColorChannel) (g : Grid) : nat :=
  length (filter (fun r : list bool => r !! ch_num ch = Some true) (active_flags g)).

(** What a refresh must leave alone in a cell. *)
Definition node_frame (n : SparseNode) : bool * ColorChannel * TomographicIndex * float :=
  (n.(active), n.(channel), n.(idx), n.(polarity)).

Definition frames (g : Grid) := map (map node_frame) g.

(** init_sparse_grid seen through the activity flags only. *)
Definition init_flag_step (st : list (list bool) * Z) (ijk : Z * Z * Z) : list (list bool) * Z :=
  let '(f, linear_idx) := st in
  let '(i, j, k) := ijk in
  if (Z.rem (i + j + k) SPARSE_FACTOR =? 0) && (linear_idx <? ACTIVE_SIZE) then
    let row := default [] (f !! Z.to_nat linear_idx) in
    let row := <[3%nat := true]> (<[2%nat := true]> (<[1%nat := true]> (<[0%nat := true]> row))) in
    (<[Z.to_nat linear_idx := row]> f, linear_idx + 1)
  else (f, linear_idx).

Definition init_flags (f : list (list bool)) : list (list bool) :=
  fst (foldl init_flag_step (f, 0) loop_triples).

(** The refresh's [active_count[ch]++] seen through the flags. *)
Fixpoint row_counts (ch : nat) (row : list bool) (counts : list Z) : list Z :=
  match row with
  | [] => counts
  | b :: row' =>
      row_counts (S ch) row'
        (if b then <[ch := default 0 (counts !! ch) + 1]> counts else counts)
  end.

Fixpoint grid_counts (f : list (list bool)) (counts : list Z) : list Z :=
  match f with
  | [] => counts
  | row :: f' => grid_counts f' (row_counts 0 row counts)
  end.

(** The Derived (CYAN) cell of a slot, when active, holds the mean of the
    Primary (RED) and Verification (GREEN) values. *)
Definition derived_is_mean (row : list SparseNode) : Prop :=
  (node_at row 3).(active) = true ->
  (node_at row 3).(value) = (((node_at row 0).(value) + (node_at row 1).(value)) / 2)%float.

(** The flags init_sparse_grid leaves on a grid with no active cell. *)
Abbreviation flags_after_init := (init_flags (active_flags zero_grid)).

(** Every row holds four cells and its Derived cell is the mean. *)
Definition rows_ok (g : Grid) : Prop :=
  forall s row, g !! s = Some row -> length row = 4%nat /\ derived_is_mean row.

(** ** Matrix operations *)

(** [Matrix2x2 { double data[2][2]; }], field [mrc] for [data[r][c]]. *)
Record Matrix2x2 := mkMatrix { m00 : float; m01 : float; m10 : float; m11 : float }.

Definition matrix_multiply (a b : Matrix2x2) : Matrix2x2 :=
  mkMatrix (a.(m00) * b.(m00) + a.(m01) * b.(m10))%float
           (a.(m00) * b.(m01) + a.(m01) * b.(m11))%float
           (a.(m10) * b.(m00) + a.(m11) * b.(m10))%float
           (a.(m10) * b.(m01) + a.(m11) * b.(m11))%float.

Definition matrix_transpose (m : Matrix2x2) : Matrix2x2 :=
  mkMatrix m.(m00) m.(m10) m.(m01) m.(m11).

Definition matrix_determinant (m : Matrix2x2) : float :=
  (m.(m00) * m.(m11) - m.(m01) * m.(m10))%float.

(** ** init_sparse_grid seen through the Primary cells *)

(** The triples that get a slot, in loop order. *)
Definition triples_on : list (Z * Z * Z) :=
  filter (fun t : Z * Z * Z => Z.rem (t.1.1 + t.1.2 + t.2) SPARSE_FACTOR = 0) loop_triples.

(** Which triple, if any, each slot's RED cell is written with. *)
Definition init_red_step (st : list (option (Z * Z * Z)) * Z) (ijk : Z * Z * Z)
    : list (option (Z * Z * Z)) * Z :=
  let '(w, linear_idx) := st in
  let '(i, j, k) := ijk in
  if (Z.rem (i + j + k) SPARSE_FACTOR =? 0) && (linear_idx <? ACTIVE_SIZE) then
    (<[Z.to_nat linear_idx := Some ijk]> w, linear_idx + 1)
  else (w, linear_idx).

Definition init_red_writes (n : nat) : list (option (Z * Z * Z)) :=
  fst (foldl init_red_step (replicate n None, 0) loop_triples).

(** The frame of a RED cell, after a write with a triple or none. *)
Definition red_frame_after (w : option (Z * Z * Z))
    (fr : bool * ColorChannel * TomographicIndex * float) :=
  match w with
  | Some (i, j, k) => (true, RED, init_tomographic_index i j k, 1.0%float)
  | None => fr
  end.

Definition red_frames (g : Grid) := map (fun row => node_frame (node_at row 0)) g.

End Dim.

(** ** nsigii_minimal.c *)
Module Minimal.

(** C [float] (binary32): the operations the file uses, as an interface. *)
Class Float32 := {
  f32 : Type;
  f32_zero : f32;
  f32_add : f32 -> f32 -> f32;
  f32_mul : f32 -> f32 -> f32;
  f32_div : f32 -> f32 -> f32;
  f32_of_int : Z -> f32;            (* int / size_t -> float conversion *)
  f32_lt : f32 -> f32 -> bool;
  f32_0_1 : f32;                     (* 0.1f *)
  f32_0_05 : f32;                    (* 0.05f *)
  f32_0_2 : f32                      (* 0.2f *)
}.

Definition DATA_SIZE : Z := 1024.
Definition SPARSE_FACTOR : Z := 4.
Definition ACTIVE_SIZE : Z := DATA_SIZE / SPARSE_FACTOR.
Definition PACKET_CAPACITY : Z := 256.   (* uint8_t data[256] *)
Definition INT_MIN : Z := -2147483648.
Definition INT_MAX : Z := 2147483647.

(** Signed 32-bit [int] arithmetic.  Overflow is undefined in C; the
    model takes the two's-complement wrap-around compilers produce. *)
Definition wrap32 (z : Z) : Z := (z - INT_MIN) mod 2 ^ 32 + INT_MIN.

Inductive DataChannel := RED_CHANNEL | GREEN_CHANNEL | BLUE_CHANNEL | CYAN_CHANNEL.

Inductive TridentEvent :=
  EVENT_UP | EVENT_DOWN | EVENT_LEFT | EVENT_RIGHT
| EVENT_BACK | EVENT_START | EVENT_ENTER | EVENT_STOP.

Record TomographicIndex := mkIndex {
  ti_i : Z; ti_j : Z; ti_k : Z;
  permutations : list (Z * Z * Z)   (* int permutations[6][3] *)
}.

Definition init_tomographic_index (i j k : Z) : TomographicIndex :=
  mkIndex i j k [(i, j, k); (j, i, k); (i, k, j); (j, k, i); (k, i, j); (k, j, i)].

(** handle_trident_event: the grid argument is not used; only the
    triple is written. *)
Definition handle_trident_event {G : Type} (event : TridentEvent) (grid : G)
    (idx : TomographicIndex) : TomographicIndex :=
  let '(mkIndex i j k perms) := idx in
  match event with
  | EVENT_UP => mkIndex (Z.rem (i + 1) 10) j k perms
  | EVENT_DOWN => mkIndex (Z.rem (i - 1 + 10) 10) j k perms
  | EVENT_LEFT => mkIndex i (Z.rem (j - 1 + 10) 10) k perms
  | EVENT_RIGHT => mkIndex i (Z.rem (j + 1) 10) k perms
  | EVENT_BACK => mkIndex i j (Z.rem (k - 1 + 10) 10) perms
  | EVENT_START => mkIndex 0 0 0 perms
  | EVENT_ENTER => idx
  | EVENT_STOP => idx
  end.

(** A sequence of events applied in order. *)
Definition run_events {G : Type} (grid : G) (idx : TomographicIndex)
    (evs : list TridentEvent) : TomographicIndex :=
  foldl (fun x ev => handle_trident_event ev grid x) idx evs.

(** [linear_idx = (i * 100 + j * 10 + k) % ACTIVE_SIZE] in [int]. *)
Definition linear_index (p : Z * Z * Z) : Z :=
  let '(i, j, k) := p in
  Z.rem (wrap32 (wrap32 (wrap32 (i * 100) + wrap32 (j * 10)) + k)) ACTIVE_SIZE.

(** The slots one protocol cycle samples, in order. *)
Definition sampled_slots (idx : TomographicIndex) : list Z :=
  map linear_index idx.(permutations).

Section Engine.
Context `{Float32}.

Record GovernanceVector := mkGV {
  attack_risk : f32;
  rollback_cost : f32;
  stability_impact : f32
}.

Record SparseNode := mkNode {
  value : Z;                   (* uint8_t *)
  active : bool;
  vector : GovernanceVector;
  channel : DataChannel;
  polarity : Z                 (* int8_t *)
}.

Record TomographicGrid := mkGrid {
  red : list SparseNode;
  green : list SparseNode;
  blue : list SparseNode;
  cyan : list SparseNode;
  active_count : Z
}.

(** Reading [a[n]]: outside the array is undefined behaviour ([None]). *)
Definition arr_get {A} (a : list A) (n : Z) : option A :=
  if n <? 0 then None else a !! Z.to_nat n.

(** The body of combine_channels for one slot where both inputs are
    active: every field of the derived node is written. *)
Definition combine_node (r g : SparseNode) : SparseNode :=
  let half x y := f32_div (f32_add x y) (f32_of_int 2) in
  mkNode (Z.quot (r.(value) + g.(value)) 2) true
    (mkGV (half r.(vector).(attack_risk) g.(vector).(attack_risk))
          (half r.(vector).(rollback_cost) g.(vector).(rollback_cost))
          (half r.(vector).(stability_impact) g.(vector).(stability_impact)))
    CYAN_CHANNEL (Z.quot (r.(polarity) + g.(polarity)) 2).

(** combine_channels(cyan, red, green, n): slot [i] is written only when
    [red[i].active && green[i].active]. *)
Definition combine_step (red green : list SparseNode) (cy : list SparseNode) (i : nat)
    : list SparseNode :=
  match red !! i, green !! i with
  | Some r, Some g => if r.(active) && g.(active) then <[i := combine_node r g]> cy else cy
  | _, _ => cy
  end.

Definition combine_channels (cy red green : list SparseNode) (n : nat) : list SparseNode :=
  foldl (combine_step red green) cy (seq 0 n).

End Engine.

Section Protocol.
Context `{Float32}.
Context {RandState : Type}.
Variable rand : RandState -> Z * RandState.

(** [(float)rand() / RAND_MAX * scale] *)
Definition rand_risk (scale : f32) (rs : RandState) : f32 * RandState :=
  let (r, rs') := rand rs in
  (f32_mul (f32_div (f32_of_int r) (f32_of_int Glibc.RAND_MAX)) scale, rs').

(** One iteration [i] of the loop of init_sparse_grid: every field of
    red[i], green[i] and blue[i] is written, cyan[i] is not. *)
Definition init_slot (st : TomographicGrid * RandState) (i : nat) : TomographicGrid * RandState :=
  let '(g, rs) := st in
  let on := Z.rem (Z.of_nat i) SPARSE_FACTOR =? 0 in
  let (rv, rs) := rand rs in
  let (gv, rs) := rand rs in
  let (bv, rs) := rand rs in
  let (a, rs) := rand_risk f32_0_1 rs in
  let (r, rs) := rand_risk f32_0_05 rs in
  let (s, rs) := rand_risk f32_0_2 rs in
  let vec := mkGV a r s in
  (mkGrid (<[i := mkNode (Z.rem rv 256) on vec RED_CHANNEL 1]> g.(red))
          (<[i := mkNode (Z.rem gv 256) on vec GREEN_CHANNEL (-1)]> g.(green))
          (<[i := mkNode (Z.rem bv 256) on vec BLUE_CHANNEL 0]> g.(blue))
          g.(cyan)
          (if on then g.(active_count) + 1 else g.(active_count)), rs).

(** init_sparse_grid on the grid's previous contents. *)
Definition init_sparse_grid (g : TomographicGrid) (rs : RandState) : TomographicGrid * RandState :=
  let g0 := mkGrid g.(red) g.(green) g.(blue) g.(cyan) 0 in
  let '(g1, rs') := foldl init_slot (g0, rs) (seq 0 (Z.to_nat ACTIVE_SIZE)) in
  (mkGrid g1.(red) g1.(green) g1.(blue)
     (combine_channels g1.(cyan) g1.(red) g1.(green) (Z.to_nat ACTIVE_SIZE))
     g1.(active_count), rs').

End Protocol.

Section Cycle.
Context `{Float32}.

(** [packet.data[packet.length++] = v]: a write past the buffer is
    undefined behaviour ([None]). *)
Definition push (data : list Z) (len v : Z) : option (list Z * Z) :=
  if (0 <=? len) && (len <? PACKET_CAPACITY) then Some (<[Z.to_nat len := v]> data, len + 1)
  else None.

(** Iteration [p] of the packet loop: RED then GREEN at the slot of the
    [p]-th permutation. *)
Definition packet_step (g : TomographicGrid) (idx : TomographicIndex)
    (st : option (list Z * Z)) (p : nat) : option (list Z * Z) :=
  '(data, len) ← st;
  perm ← idx.(permutations) !! p;
  let lin := linear_index perm in
  r ← arr_get g.(red) lin;
  '(data, len) ← (if r.(active) then push data len r.(value) else Some (data, len));
  gr ← arr_get g.(green) lin;
  if gr.(active) then push data len gr.(value) else Some (data, len).

(** The packet buffer before the loop: its contents are never read
    beyond [length]. *)
Definition packet_init : list Z := replicate (Z.to_nat PACKET_CAPACITY) 0.

Definition build_packet (g : TomographicGrid) (idx : TomographicIndex) : option (list Z * Z) :=
  foldl (packet_step g idx) (Some (packet_init, 0)) (seq 0 6).

(** [sum += packet.data[i]] for [i < length], then the mean (0 if empty). *)
Definition packet_entropy_of (data : list Z) (len : Z) : f32 :=
  let sum := foldl (fun s d => f32_add s (f32_of_int d)) f32_zero (take (Z.to_nat len) data) in
  if len >? 0 then f32_div sum (f32_of_int len) else f32_of_int 0.

Definition zero_vector : GovernanceVector := mkGV f32_zero f32_zero f32_zero.

(** Iteration [i] of the governance loop over [red[i]]. *)
Definition avg_step (g : TomographicGrid) (st : option (GovernanceVector * Z)) (i : nat)
    : option (GovernanceVector * Z) :=
  '(v, count) ← st;
  n ← g.(red) !! i;
  if n.(active) then
    Some (mkGV (f32_add v.(attack_risk) n.(vector).(attack_risk))
               (f32_add v.(rollback_cost) n.(vector).(rollback_cost))
               (f32_add v.(stability_impact) n.(vector).(stability_impact)), count + 1)
  else Some (v, count).

Definition governance_average (g : TomographicGrid) : option GovernanceVector :=
  '(v, count) ← foldl (avg_step g) (Some (zero_vector, 0)) (seq 0 (Z.to_nat ACTIVE_SIZE));
  if count >? 0 then
    Some (mkGV (f32_div v.(attack_risk) (f32_of_int count))
               (f32_div v.(rollback_cost) (f32_of_int count))
               (f32_div v.(stability_impact) (f32_of_int count)))
  else Some v.

Record ProtocolOut := mkOut {
  packet_data : list Z;
  packet_length : Z;
  packet_entropy : f32;
  avg_vector : GovernanceVector;
  balanced : bool                (* [avg_vector.attack_risk < 0.1f] *)
}.

(** nsigii_protocol_cycle; [None] when an access leaves an array. *)
Definition nsigii_protocol_cycle (g : TomographicGrid) (idx : TomographicIndex) : option ProtocolOut :=
  '(data, len) ← build_packet g idx;
  avg ← governance_average g;
  Some (mkOut data len (packet_entropy_of data len) avg (f32_lt avg.(attack_risk) f32_0_1)).

End Cycle.


(** ** Observers of the minimal engine *)
Section Observers.
Context `{Float32}.

(** A float sum in slot order, and the arithmetic mean (0 if empty). *)
Definition f32_sum (xs : list f32) : f32 := foldl f32_add f32_zero xs.

Definition mean (xs : list f32) : f32 :=
  if (length xs =? 0)%nat then f32_zero
  else f32_div (f32_sum xs) (f32_of_int (Z.of_nat (length xs))).

(** The active Primary (RED) cells of the whole grid. *)
Definition active_primary (g : TomographicGrid) : list SparseNode :=
  filter (fun n : SparseNode => n.(active) = true) (take (Z.to_nat ACTIVE_SIZE) g.(red)).

(** The component-wise mean governance vector of those cells. *)
Definition mean_vector (g : TomographicGrid) : GovernanceVector :=
  let a := active_primary g in
  mkGV (mean (map (fun n => n.(vector).(attack_risk)) a))
       (mean (map (fun n => n.(vector).(rollback_cost)) a))
       (mean (map (fun n => n.(vector).(stability_impact)) a)).

(** The sums and the count the governance loop accumulates over [l]. *)
Definition sums_of (l : list SparseNode) : GovernanceVector * Z :=
  let a := filter (fun n : SparseNode => n.(active) = true) l in
  (mkGV (f32_sum (map (fun n => n.(vector).(attack_risk)) a))
        (f32_sum (map (fun n => n.(vector).(rollback_cost)) a))
        (f32_sum (map (fun n => n.(vector).(stability_impact)) a)),
   Z.of_nat (length a)).

End Observers.

(** ** fourier_square_wave, the observer and main *)

(** The C library calls and [float]/[double] conversions the observer uses. *)
Class Float32Libm `{Float32} := {
  sinf : f32 -> f32;
  f32_to_double : f32 -> float;      (* float -> double promotion *)
  f32_of_double : float -> f32       (* double -> float conversion *)
}.

(** [(uint8_t)d] for a [double]: truncation toward zero; the conversion is
    undefined ([None]) for an infinite or NaN [d] and for a truncated value
    outside [0, 255]. *)
Definition double_trunc (d : float) : option Z :=
  match Prim2SF d with
  | S754_zero _ => Some 0
  | S754_finite s m e =>
      let a := if 0 <=? e then Z.pos m * 2 ^ e else Z.pos m / 2 ^ (- e) in
      Some (if s then - a else a)
  | _ => None
  end.

Definition to_uint8 (d : float) : option Z :=
  z ← double_trunc d;
  if (0 <=? z) && (z <? 256) then Some z else None.

Section Observer.
Context `{Float32Libm}.

(** fourier_square_wave: [for (n = 1; n <= harmonics; n += 2)
    result += sinf(n * x) / n], then [(4.0f / M_PI) * result] in [double]
    converted back to [float]. *)
Fixpoint wave_loop (fuel : nat) (x : f32) (harmonics n : Z) (result : f32) : f32 :=
  match fuel with
  | O => result
  | S f =>
      if n <=? harmonics then
        wave_loop f x harmonics (n + 2)
          (f32_add result (f32_div (sinf (f32_mul (f32_of_int n) x)) (f32_of_int n)))
      else result
  end.

Definition fourier_square_wave (x : f32) (harmonics : Z) : f32 :=
  f32_of_double ((4 / Dim.M_PI) *
    f32_to_double (wave_loop (Z.to_nat harmonics + 1) x harmonics 1 f32_zero))%float.

(** The observer's own fields; its [grid] and [index] pointers are the
    arguments of observer_consume. *)
Record Observer := mkObserver {
  position : Z;
  observation_time : f32
}.

(** The array of a channel, read and replaced. *)
Definition channel_array (ch : DataChannel) (g : TomographicGrid) : list SparseNode :=
  match ch with
  | RED_CHANNEL => g.(red)
  | GREEN_CHANNEL => g.(green)
  | BLUE_CHANNEL => g.(blue)
  | CYAN_CHANNEL => g.(cyan)
  end.

Definition with_channel_array (ch : DataChannel) (g : TomographicGrid)
    (a : list SparseNode) : TomographicGrid :=
  match ch with
  | RED_CHANNEL => mkGrid a g.(green) g.(blue) g.(cyan) g.(active_count)
  | GREEN_CHANNEL => mkGrid g.(red) a g.(blue) g.(cyan) g.(active_count)
  | BLUE_CHANNEL => mkGrid g.(red) g.(green) a g.(cyan) g.(active_count)
  | CYAN_CHANNEL => mkGrid g.(red) g.(green) g.(blue) a g.(active_count)
  end.

(** observer_consume: the node at the index's current triple; if it is
    active, its value becomes [(uint8_t)fabs(wave * 127) % 256] and the
    observation time advances by 0.1f.  [None]: an access outside the
    array or an undefined conversion. *)
Definition observer_consume (g : TomographicGrid) (idx : TomographicIndex)
    (obs : Observer) (ch : DataChannel) : option (TomographicGrid * Observer) :=
  let linear_idx := linear_index (idx.(ti_i), idx.(ti_j), idx.(ti_k)) in
  node ← arr_get (channel_array ch g) linear_idx;
  if node.(active) then
    let wave := fourier_square_wave obs.(observation_time) 5 in
    v ← to_uint8 (PrimFloat.abs (f32_to_double (f32_mul wave (f32_of_int 127))));
    let node' := mkNode (Z.rem v 256) node.(active) node.(vector) node.(channel) node.(polarity) in
    Some (with_channel_array ch g (<[Z.to_nat linear_idx := node']> (channel_array ch g)),
          mkObserver obs.(position) (f32_add obs.(observation_time) f32_0_1))
  else Some (g, obs).

(** main: the event loop, with a protocol cycle and the four consumptions
    at every ENTER. *)
Definition main_events : list TridentEvent :=
  [EVENT_START; EVENT_RIGHT; EVENT_UP; EVENT_ENTER;
   EVENT_LEFT; EVENT_DOWN; EVENT_BACK; EVENT_STOP].

Record MainState := mkMain {
  ms_grid : TomographicGrid;
  ms_idx : TomographicIndex;
  ms_observer : Observer;
  ms_cycles : list ProtocolOut     (* what each protocol cycle computed *)
}.

Definition main_step (st : option MainState) (ev : TridentEvent) : option MainState :=
  s ← st;
  let idx := handle_trident_event ev s.(ms_grid) s.(ms_idx) in
  match ev with
  | EVENT_ENTER =>
      out ← nsigii_protocol_cycle s.(ms_grid) idx;
      '(g1, o1) ← observer_consume s.(ms_grid) idx s.(ms_observer) RED_CHANNEL;
      '(g2, o2) ← observer_consume g1 idx o1 GREEN_CHANNEL;
      '(g3, o3) ← observer_consume g2 idx o2 BLUE_CHANNEL;
      '(g4, o4) ← observer_consume g3 idx o3 CYAN_CHANNEL;
      Some (mkMain g4 idx o4 (s.(ms_cycles) ++ [out]))
  | _ => Some (mkMain s.(ms_grid) idx s.(ms_observer) s.(ms_cycles))
  end.

(** main on the previous contents [g0] of its stack grid. *)
Definition nsigii_minimal_main {RandState : Type} (rand : RandState -> Z * RandState)
    (g0 : TomographicGrid) (rs : RandState) : option MainState :=
  let g := fst (init_sparse_grid rand g0 rs) in
  foldl main_step
    (Some (mkMain g (init_tomographic_index 0 0 0) (mkObserver 0 f32_zero) []))
    main_events.

End Observer.

(** ** More observers *)
Section Observers2.
Context `{Float32}.

(** The bytes iteration [p] of the packet loop appends: RED then GREEN
    at the slot of the [p]-th permutation, each when active ([None]: a
    missing permutation or a read outside the arrays). *)
Definition sample_bytes (g : TomographicGrid) (idx : TomographicIndex) (p : nat)
    : option (list Z) :=
  perm ← idx.(permutations) !! p;
  r ← arr_get g.(red) (linear_index perm);
  gr ← arr_get g.(green) (linear_index perm);
  Some ((if r.(active) then [r.(value)] else []) ++ (if gr.(active) then [gr.(value)] else [])).

(** The layout init_sparse_grid gives slot [i] of RED, GREEN and BLUE. *)
Definition slot_layout (g : TomographicGrid) (i : nat) : Prop :=
  exists r gr b, g.(red) !! i = Some r /\ g.(green) !! i = Some gr /\ g.(blue) !! i = Some b /\
    r.(active) = (i mod 4 =? 0)%nat /\ gr.(active) = r.(active) /\ b.(active) = r.(active) /\
    r.(channel) = RED_CHANNEL /\ gr.(channel) = GREEN_CHANNEL /\ b.(channel) = BLUE_CHANNEL /\
    r.(polarity) = 1 /\ gr.(polarity) = -1 /\ b.(polarity) = 0 /\
    gr.(vector) = r.(vector) /\ b.(vector) = r.(vector).

(** The values of slot [i] of RED, GREEN and BLUE are bytes. *)
Definition slot_values (g : TomographicGrid) (i : nat) : Prop :=
  forall n, g.(red) !! i = Some n \/ g.(green) !! i = Some n \/ g.(blue) !! i = Some n ->
  0 <= n.(value) < 256.

End Observers2.

(** The interface implemented with binary64 arithmetic, to evaluate the
    model on concrete inputs. *)
#[export] Instance float_binary64 : Float32 := {|
  f32 := float;
  f32_zero := 0%float;
  f32_add := PrimFloat.add;
  f32_mul := PrimFloat.mul;
  f32_div := PrimFloat.div;
  f32_of_int := double_of_int;
  f32_lt := PrimFloat.ltb;
  f32_0_1 := 0.1%float;
  f32_0_05 := 0.05%float;
  f32_0_2 := 0.2%float
|}.

(** A grid of [ACTIVE_SIZE] zeroed nodes per array. *)
Definition zero_node : SparseNode := mkNode 0 false zero_vector RED_CHANNEL 0.
Definition zero_grid : TomographicGrid :=
  let a := replicate (Z.to_nat ACTIVE_SIZE) zero_node in mkGrid a a a a 0.

(** [float] taken as [double] for evaluation, with the [sin] above. *)
#[export] Instance float_binary64_libm : Float32Libm := {|
  sinf := Libm.sin;
  f32_to_double := fun x => x;
  f32_of_double := fun x => x
|}.

End Minimal.

(** * main of the dimensional engine *)
Module DimMain.
Import Dim.

(** [(p0 * 100 + p1 * 10 + p2) % ACTIVE_SIZE] in [int]. *)
Definition tomo_linear (p : Z * Z * Z) : Z :=
  let '(a, b, c) := p in
  Z.rem (Minimal.wrap32 (Minimal.wrap32 (Minimal.wrap32 (a * 100) + Minimal.wrap32 (b * 10)) + c))
    ACTIVE_SIZE.

(** tomographic_verification: the six permutations stored at
    [grid[ACTIVE_SIZE / 2][RED].idx], each with its linear index and the
    RED value read there; [None] when a read leaves the arrays. *)
Definition tomographic_verification (g : Grid) : option (list (Z * Z * Z * Z * float)) :=
  let sample_idx := Z.quot ACTIVE_SIZE 2 in
  let idx := (get g (Z.to_nat sample_idx) (ch_num RED)).(idx) in
  mapM (fun p : nat =>
          perm ← idx.(permutations) !! p;
          let linear := tomo_linear perm in
          if (0 <=? linear) && (linear <? ACTIVE_SIZE) then
            Some (perm, linear, (get g (Z.to_nat linear) (ch_num RED)).(value))
          else None)
       (seq 0 6).

(** What main computes: the three refreshes, the grid they leave and the
    tomographic verification of it.  The matrix, quadratic, derivative
    and Fourier demonstrations only print values of fixed inputs. *)
Record DimMainOut {RandState : Type} := mkDimMain {
  dm_cycles : list (@CycleOut RandState);
  dm_grid : Grid;
  dm_tomography : option (list (Z * Z * Z * Z * float))
}.

(** main on the previous contents [g0] of its stack grid, the generator
    seeded by [srand(time(NULL))] being [rs]. *)
Definition nsigii_dimensional_main (sin : float -> float) {RandState : Type}
    (rand : RandState -> Z * RandState) (g0 : Grid) (rs : RandState) : @DimMainOut RandState :=
  let '(g1, rs1) := init_sparse_grid sin rand g0 rs in
  let cycles := run_cycles sin rand g1 rs1 0 3 in
  let g2 := default g1 (co_grid <$> last cycles) in
  @mkDimMain RandState cycles g2 (tomographic_verification g2).

End DimMain.

(** * Checks of the reference C library *)

Example glibc_first_outputs :
  let (a, s1) := Glibc.rand (Glibc.srand 1) in
  let (b, s2) := Glibc.rand s1 in
  let (c, _) := Glibc.rand s2 in
  (a, b, c) = (1804289383, 846930886, 1681692777).
Proof. vm_compute. reflexivity. Qed.

Example libm_sin_half_pi : (abs (Libm.sin (Libm.PI / 2) - 1) <? 1e-12)%float = true.
Proof. vm_compute. reflexivity. Qed.

(** * Properties of the dimensional engine *)
Module DimFacts.
Import Dim.

(** ** List helpers *)

Lemma map_insert {A B} (f : A -> B) (l : list A) (n : nat) (x : A) :
  map f (<[n := x]> l) = <[n := f x]> (map f l).
Proof.
  revert n. induction l as [|y l IH]; intros [|n]; simpl; try reflexivity.
  by rewrite IH.
Qed.

Lemma lookup_map_default {A B} (f : A -> B) (l : list (list A)) (n : nat) :
  default [] (map (map f) l !! n) = map f (default [] (l !! n)).
Proof.
  revert n. induction l as [|y l IH]; intros [|n]; simpl; try reflexivity. apply IH.
Qed.

(** ** The refresh touches values, traces and entropy only *)

Section Refresh.
Variable sin : float -> float.
Context {RandState : Type}.
Variable rand : RandState -> Z * RandState.

Lemma cycle_node_frame cycle i ch n st :
  node_frame (fst (cycle_node sin rand cycle i ch n st)) = node_frame n.
Proof.
  destruct st as [[rs counts] total]. unfold cycle_node.
  destruct (active n); [destruct (rand rs)|]; reflexivity.
Qed.

Lemma cycle_node_counts cycle i ch n rs counts total :
  (snd (cycle_node sin rand cycle i ch n (rs, counts, total))).1.2 =
  if n.(active) then <[ch := default 0 (counts !! ch) + 1]> counts else counts.
Proof.
  unfold cycle_node. destruct (active n); [destruct (rand rs)|]; reflexivity.
Qed.

Lemma cycle_row_frame row : forall cycle i ch st,
  map node_frame (fst (cycle_row sin rand cycle i ch row st)) = map node_frame row.
Proof.
  induction row as [|n row IH]; intros cycle i ch st; simpl; [reflexivity|].
  pose proof (cycle_node_frame cycle i ch n st) as Hn.
  destruct (cycle_node sin rand cycle i ch n st) as [n' st1].
  specialize (IH cycle i (S ch) st1).
  destruct (cycle_row sin rand cycle i (S ch) row st1) as [row' st2].
  simpl in *. by rewrite Hn, IH.
Qed.

Lemma cycle_row_counts row : forall cycle i ch rs counts total,
  (snd (cycle_row sin rand cycle i ch row (rs, counts, total))).1.2 =
  row_counts ch (map active row) counts.
Proof.
  induction row as [|n row IH]; intros cycle i ch rs counts total;
    cbn [cycle_row map row_counts]; [reflexivity|].
  pose proof (cycle_node_counts cycle i ch n rs counts total) as Hn.
  destruct (cycle_node sin rand cycle i ch n (rs, counts, total)) as [n' [[rs1 c1] t1]].
  specialize (IH cycle i (S ch) rs1 c1 t1).
  destruct (cycle_row sin rand cycle i (S ch) row (rs1, c1, t1)) as [row' st2].
  simpl in *. rewrite IH, Hn. reflexivity.
Qed.

Lemma cycle_grid_frame g : forall cycle i st,
  frames (fst (cycle_grid sin rand cycle i g st)) = frames g.
Proof.
  unfold frames.
  induction g as [|row g IH]; intros cycle i st; simpl; [reflexivity|].
  pose proof (cycle_row_frame row cycle i 0 st) as Hr.
  destruct (cycle_row sin rand cycle i 0 row st) as [row' st1].
  specialize (IH cycle (i + 1) st1).
  destruct (cycle_grid sin rand cycle (i + 1) g st1) as [g' st2].
  simpl in *. by rewrite Hr, IH.
Qed.

Lemma cycle_grid_counts g : forall cycle i rs counts total,
  (snd (cycle_grid sin rand cycle i g (rs, counts, total))).1.2 =
  grid_counts (active_flags g) counts.
Proof.
  unfold active_flags.
  induction g as [|row g IH]; intros cycle i rs counts total;
    cbn [cycle_grid map grid_counts]; [reflexivity|].
  pose proof (cycle_row_counts row cycle i 0 rs counts total) as Hr.
  destruct (cycle_row sin rand cycle i 0 row (rs, counts, total)) as [row' [[rs1 c1] t1]].
  specialize (IH cycle (i + 1) rs1 c1 t1).
  destruct (cycle_grid sin rand cycle (i + 1) g (rs1, c1, t1)) as [g' st2].
  simpl in *. by rewrite IH, Hr.
Qed.

Lemma refresh_frames g cycle rs :
  frames (co_grid (nsigii_verification_cycle sin rand g cycle rs)) = frames g.
Proof.
  unfold nsigii_verification_cycle.
  pose proof (cycle_grid_frame g cycle 0 (rs, [0; 0; 0; 0], 0%float)) as H.
  destruct (cycle_grid sin rand cycle 0 g (rs, [0; 0; 0; 0], 0%float)) as [g' [[rs' c] t]].
  exact H.
Qed.

Lemma refresh_counts g cycle rs :
  active_count (nsigii_verification_cycle sin rand g cycle rs) =
  grid_counts (active_flags g) [0; 0; 0; 0].
Proof.
  unfold nsigii_verification_cycle.
  pose proof (cycle_grid_counts g cycle 0 rs [0; 0; 0; 0] 0%float) as H.
  destruct (cycle_grid sin rand cycle 0 g (rs, [0; 0; 0; 0], 0%float)) as [g' [[rs' c] t]].
  exact H.
Qed.

Lemma flags_of_frames g1 g2 : frames g1 = frames g2 -> active_flags g1 = active_flags g2.
Proof.
  intros H.
  assert (Hp : forall g, active_flags g = map (map (fun fr => fr.1.1.1)) (frames g)).
  { intros g. unfold active_flags, frames. rewrite map_map.
    apply map_ext. intros row. rewrite map_map. reflexivity. }
  by rewrite !Hp, H.
Qed.

Lemma run_cycles_flags n : forall g rs cycle,
  Forall (fun o => active_flags (co_grid o) = active_flags g /\
                   active_count o = grid_counts (active_flags g) [0; 0; 0; 0])
         (run_cycles sin rand g rs cycle n).
Proof.
  induction n as [|n IH]; intros g rs cycle; simpl; constructor.
  - split; [apply flags_of_frames, refresh_frames | apply refresh_counts].
  - set (o := nsigii_verification_cycle sin rand g cycle rs).
    assert (Hf : active_flags (co_grid o) = active_flags g)
      by (apply flags_of_frames, refresh_frames).
    eapply Forall_impl; [apply (IH (co_grid o) (co_rand o) (cycle + 1))|].
    simpl. intros x [H1 H2]. rewrite Hf in H1, H2. by split.
Qed.

Lemma lookup_map {A B} (f : A -> B) (l : list A) (n : nat) :
  map f l !! n = option_map f (l !! n).
Proof.
  revert n. induction l as [|y l IH]; intros [|n]; simpl; try reflexivity. apply IH.
Qed.

Lemma frames_get g1 g2 s ch :
  frames g1 = frames g2 -> node_frame (get g1 s ch) = node_frame (get g2 s ch).
Proof.
  intros H. unfold frames in H.
  assert (Hs := f_equal (fun l => l !! s) H). simpl in Hs. rewrite !lookup_map in Hs.
  unfold get.
  destruct (g1 !! s) as [r1|], (g2 !! s) as [r2|]; simpl in Hs; try discriminate; [|reflexivity].
  injection Hs as Hr.
  change (default [] (Some r1)) with r1. change (default [] (Some r2)) with r2.
  assert (Hc := f_equal (fun l => l !! ch) Hr). simpl in Hc. rewrite !lookup_map in Hc.
  unfold node_at.
  destruct (r1 !! ch), (r2 !! ch); simpl in Hc; try discriminate; [|reflexivity].
  injection Hc as Ha Hch Hi Hp. simpl. unfold node_frame. by rewrite Ha, Hch, Hi, Hp.
Qed.

(** ** Initialisation seen through the activity flags *)

Lemma init_step_flags g lin rs ijk :
  let '(g', lin', _) := init_step sin rand (g, lin, rs) ijk in
  (active_flags g', lin') = init_flag_step (active_flags g, lin) ijk.
Proof.
  destruct ijk as [[i j] k]. unfold init_step, init_flag_step.
  destruct (_ && _); [|reflexivity].
  destruct (rand_entropy rand rs) as [er rs1].
  destruct (rand_entropy rand rs1) as [eg rs2].
  destruct (rand_entropy rand rs2) as [eb rs3].
  unfold active_flags. rewrite map_insert, lookup_map_default, !map_insert.
  cbn [active set_deriv set_polarity set_entropy set_channel set_active set_value set_idx].
  reflexivity.
Qed.

Lemma init_fold_flags l : forall g lin rs,
  let '(g', lin', _) := foldl (init_step sin rand) (g, lin, rs) l in
  (active_flags g', lin') = foldl init_flag_step (active_flags g, lin) l.
Proof.
  induction l as [|x l IH]; intros g lin rs; cbn [foldl]; [reflexivity|].
  pose proof (init_step_flags g lin rs x) as Hx.
  destruct (init_step sin rand (g, lin, rs) x) as [[g1 lin1] rs1].
  rewrite <- Hx. apply IH.
Qed.

Lemma init_flags_spec g rs :
  active_flags (fst (init_sparse_grid sin rand g rs)) = init_flags (active_flags g).
Proof.
  unfold init_sparse_grid, init_flags.
  pose proof (init_fold_flags loop_triples g 0 rs) as H.
  destruct (foldl (init_step sin rand) (g, 0, rs) loop_triples) as [[g' lin'] rs'].
  rewrite <- H. reflexivity.
Qed.

End Refresh.


Lemma flags_after_init_counts :
  length (filter (fun r : list bool => r !! 0%nat = Some true) flags_after_init) = 249%nat /\
  length (filter (fun r : list bool => r !! 1%nat = Some true) flags_after_init) = 249%nat /\
  grid_counts flags_after_init [0; 0; 0; 0] = [249; 249; 249; 249].
Proof. vm_compute. repeat split. Qed.

(** Every row is all-active or all-inactive. *)
Lemma flags_after_init_rows :
  Forall (fun r => r = [true; true; true; true] \/ r = [false; false; false; false])
         flags_after_init.
Proof.
  apply List.Forall_forall. intros r Hr.
  assert (Hb : forallb (fun r : list bool => bool_decide (r = [true; true; true; true]) ||
                                 bool_decide (r = [false; false; false; false]))
                       flags_after_init = true) by (vm_compute; reflexivity).
  rewrite forallb_forall in Hb. apply Hb in Hr.
  apply orb_true_iff in Hr as [Hr|Hr]; apply bool_decide_eq_true in Hr; auto.
Qed.

(** ** Grids with no active cell *)
Lemma map_const_replicate {A B} (f : A -> B) (c : B) (l : list A) :
  Forall (fun x => f x = c) l -> map f l = replicate (length l) c.
Proof.
  induction 1 as [|x l Hx _ IH]; cbn [map length replicate]; [reflexivity|].
  rewrite Hx, IH. reflexivity.
Qed.

Lemma no_active_flags g : length g = Z.to_nat ACTIVE_SIZE ->
  Forall (fun row : list SparseNode => map active row = [false; false; false; false]) g ->
  active_flags g = active_flags zero_grid.
Proof.
  intros Hl Hr. unfold active_flags.
  rewrite (map_const_replicate (map active) [false; false; false; false] g Hr), Hl.
  vm_compute. reflexivity.
Qed.

(** ** The slots initialisation reaches *)
Lemma init_flag_counter l : forall f f' lin,
  snd (foldl init_flag_step (f, lin) l) = snd (foldl init_flag_step (f', lin) l).
Proof.
  induction l as [|[[i j] k] l IH]; intros f f' lin; cbn [foldl]; [reflexivity|].
  unfold init_flag_step. destruct (_ && _); apply IH.
Qed.

Section Reach.
Variable sin : float -> float.
Context {RandState : Type}.
Variable rand : RandState -> Z * RandState.

(** Every write of the loop is at the current [linear_idx], which then
    grows: slots at or beyond the final [linear_idx] are never written. *)
Lemma init_fold_reach l : forall g lin rs, 0 <= lin ->
  let '(g', lin', _) := foldl (init_step sin rand) (g, lin, rs) l in
  lin <= lin' /\ forall s : nat, lin' <= Z.of_nat s -> g' !! s = g !! s.
Proof.
  induction l as [|x l IH]; intros g lin rs Hlin; cbn [foldl].
  - split; [lia|intros; reflexivity].
  - assert (Hx : let '(g1, lin1, _) := init_step sin rand (g, lin, rs) x in
                 lin <= lin1 /\ forall s : nat, lin1 <= Z.of_nat s -> g1 !! s = g !! s).
    { destruct x as [[i j] k]. unfold init_step.
      destruct (_ && _); [|split; [lia|intros; reflexivity]].
      destruct (rand_entropy rand rs) as [er rs1].
      destruct (rand_entropy rand rs1) as [eg rs2].
      destruct (rand_entropy rand rs2) as [eb rs3].
      split; [lia|]. intros s Hs. apply list_lookup_insert_ne. lia. }
    destruct (init_step sin rand (g, lin, rs) x) as [[g1 lin1] rs1].
    destruct Hx as [Hl1 Hg1].
    specialize (IH g1 lin1 rs1 ltac:(lia)).
    destruct (foldl (init_step sin rand) (g1, lin1, rs1) l) as [[g2 lin2] rs2].
    destruct IH as [Hl2 Hg2]. split; [lia|].
    intros s Hs. rewrite Hg2 by lia. apply Hg1. lia.
Qed.

(** The loop ends with [linear_idx = 249], whatever the grid. *)
Lemma init_lin_249 g rs : (foldl (init_step sin rand) (g, 0, rs) loop_triples).1.2 = 249.
Proof.
  pose proof (init_fold_flags sin rand loop_triples g 0 rs) as H.
  destruct (foldl (init_step sin rand) (g, 0, rs) loop_triples) as [[g' lin'] rs'].
  apply (f_equal snd) in H. cbn [snd] in H |- *.
  rewrite H, (init_flag_counter _ _ []). vm_compute. reflexivity.
Qed.

(** Slot 249 is never written. *)
Lemma init_slot_249 g rs : fst (init_sparse_grid sin rand g rs) !! 249%nat = g !! 249%nat.
Proof.
  unfold init_sparse_grid.
  pose proof (init_lin_249 g rs) as Hl.
  pose proof (init_fold_reach loop_triples g 0 rs ltac:(lia)) as H.
  destruct (foldl (init_step sin rand) (g, 0, rs) loop_triples) as [[g' lin'] rs'].
  cbn [fst snd] in Hl |- *. destruct H as [_ H]. apply H. lia.
Qed.

End Reach.

End DimFacts.

(** * Facts on the minimal engine *)
Module MinFacts.
Import Minimal.

Lemma ACTIVE_SIZE_eq : ACTIVE_SIZE = 256.
Proof. reflexivity. Qed.

Lemma PACKET_CAPACITY_eq : PACKET_CAPACITY = 256.
Proof. reflexivity. Qed.

(** Arithmetic that stays in [int] range does not wrap. *)
Lemma wrap32_small z : INT_MIN <= z <= INT_MAX -> wrap32 z = z.
Proof.
  unfold wrap32, INT_MIN, INT_MAX. intros Hz.
  rewrite Z.mod_small; lia.
Qed.

(** [(i*100 + j*10 + k) % ACTIVE_SIZE] for a non-negative triple with no
    overflow is an index of the arrays. *)
Lemma linear_index_bounds i j k :
  0 <= i -> 0 <= j -> 0 <= k -> i * 100 + j * 10 + k <= INT_MAX ->
  linear_index (i, j, k) = (i * 100 + j * 10 + k) mod ACTIVE_SIZE /\
  0 <= linear_index (i, j, k) < ACTIVE_SIZE.
Proof.
  intros Hi Hj Hk Hm. unfold linear_index.
  assert (HM : INT_MIN < 0) by (unfold INT_MIN; lia).
  rewrite (wrap32_small (i * 100)) by lia.
  rewrite (wrap32_small (j * 10)) by lia.
  rewrite (wrap32_small (i * 100 + j * 10)) by lia.
  rewrite (wrap32_small (i * 100 + j * 10 + k)) by lia.
  rewrite ACTIVE_SIZE_eq, Z.rem_mod_nonneg by lia.
  split; [reflexivity|]. apply Z.mod_pos_bound. lia.
Qed.

(** Wrap-around navigation keeps each coordinate in [0, 10). *)
Lemma rem10_bounds z : 0 <= z -> 0 <= Z.rem z 10 < 10.
Proof.
  intros Hz. rewrite Z.rem_mod_nonneg by lia. apply Z.mod_pos_bound. lia.
Qed.

Lemma existsb_seq (i n : nat) : (i < n)%nat -> existsb (Nat.eqb i) (seq 0 n) = true.
Proof.
  intros Hi. apply existsb_exists. exists i. split.
  - apply in_seq. lia.
  - apply Nat.eqb_refl.
Qed.

Section Facts.
Context `{Float32}.

(** ** combine_channels, slot by slot *)

Lemma combine_steps_lookup (red green : list SparseNode) (i : nat) (r g : SparseNode) :
  red !! i = Some r -> green !! i = Some g ->
  forall (l : list nat) (cy : list SparseNode) (c : SparseNode), cy !! i = Some c ->
  foldl (combine_step red green) cy l !! i =
  Some (if existsb (Nat.eqb i) l && (active r && active g) then combine_node r g else c).
Proof.
  intros Hr Hg l. induction l as [|j l IH]; intros cy c Hc; cbn [foldl existsb].
  - exact Hc.
  - set (c' := if (i =? j)%nat && (active r && active g) then combine_node r g else c).
    assert (Hc' : combine_step red green cy j !! i = Some c').
    { unfold combine_step, c'. destruct (Nat.eqb_spec i j) as [<-|Hne].
      - rewrite Hr, Hg. cbn [andb]. destruct (active r && active g).
        + apply list_lookup_insert_eq. eapply lookup_lt_Some; exact Hc.
        + exact Hc.
      - cbn [andb].
        destruct (red !! j) as [rj|], (green !! j) as [gj|]; try exact Hc.
        destruct (active rj && active gj); [|exact Hc].
        rewrite list_lookup_insert_ne by congruence. exact Hc. }
    rewrite (IH _ _ Hc'). unfold c'.
    destruct (i =? j)%nat, (existsb (Nat.eqb i) l), (active r && active g); reflexivity.
Qed.

Lemma combine_channels_lookup (cy red green : list SparseNode) (n i : nat)
    (r g c : SparseNode) :
  (i < n)%nat -> red !! i = Some r -> green !! i = Some g -> cy !! i = Some c ->
  combine_channels cy red green n !! i =
  Some (if active r && active g then combine_node r g else c).
Proof.
  intros Hi Hr Hg Hc. unfold combine_channels.
  rewrite (combine_steps_lookup red green i r g Hr Hg _ cy c Hc), existsb_seq by exact Hi.
  reflexivity.
Qed.

(** ** The governance loop is a sum over the active cells *)

Lemma f32_sum_snoc xs x : f32_sum (xs ++ [x]) = f32_add (f32_sum xs) x.
Proof. unfold f32_sum. rewrite foldl_app. reflexivity. Qed.

Lemma avg_loop_spec g n :
  (n <= length g.(red))%nat ->
  foldl (avg_step g) (Some (zero_vector, 0)) (seq 0 n) = Some (sums_of (take n g.(red))).
Proof.
  induction n as [|n IH]; intros Hn; [reflexivity|].
  rewrite seq_S, foldl_app, IH by lia. cbn [foldl Nat.add].
  destruct (lookup_lt_is_Some_2 g.(red) n) as [x Hx]; [lia|].
  rewrite (take_S_r _ _ x Hx).
  unfold avg_step. cbn [mbind option_bind]. rewrite Hx. cbn [mbind option_bind].
  unfold sums_of. rewrite filter_app.
  destruct (active x) eqn:Ex.
  - rewrite (filter_cons_True _ x []) by exact Ex. cbn [filter list_filter].
    rewrite !map_app, length_app. cbn [length map]. rewrite !f32_sum_snoc.
    f_equal. f_equal. lia.
  - rewrite (filter_cons_False _ x []) by congruence. cbn [filter list_filter].
    rewrite app_nil_r. reflexivity.
Qed.

Lemma avg_loop_some g n v :
  foldl (avg_step g) (Some (zero_vector, 0)) (seq 0 n) = Some v ->
  (n <= length g.(red))%nat.
Proof.
  destruct n as [|n]; intros Hv; [lia|].
  rewrite seq_S, foldl_app in Hv. cbn [foldl Nat.add] in Hv.
  destruct (foldl (avg_step g) (Some (zero_vector, 0)) (seq 0 n)) as [[w c]|];
    [|discriminate].
  unfold avg_step in Hv. cbn [mbind option_bind] in Hv.
  destruct (g.(red) !! n) eqn:Hn; [|discriminate].
  apply lookup_lt_Some in Hn. lia.
Qed.

Lemma governance_average_spec g :
  (Z.to_nat ACTIVE_SIZE <= length g.(red))%nat ->
  governance_average g = Some (mean_vector g).
Proof.
  intros Hn. unfold governance_average. rewrite avg_loop_spec by exact Hn.
  cbn [mbind option_bind]. unfold sums_of, mean_vector, active_primary, mean.
  set (a := filter (fun n : SparseNode => active n = true) (take (Z.to_nat ACTIVE_SIZE) (red g))).
  rewrite !length_map.
  destruct (length a) as [|m] eqn:Ha.
  - apply nil_length_inv in Ha. rewrite Ha. reflexivity.
  - cbn [Nat.eqb]. destruct (Z.gtb_spec (Z.of_nat (S m)) 0); [reflexivity|lia].
Qed.

Lemma governance_average_some g v :
  governance_average g = Some v -> v = mean_vector g.
Proof.
  intros Hv.
  assert (Hn : (Z.to_nat ACTIVE_SIZE <= length g.(red))%nat).
  { unfold governance_average in Hv.
    destruct (foldl (avg_step g) (Some (zero_vector, 0)) (seq 0 (Z.to_nat ACTIVE_SIZE)))
      as [p|] eqn:E; [|discriminate].
    exact (avg_loop_some g _ p E). }
  rewrite governance_average_spec in Hv by exact Hn. congruence.
Qed.

(** ** The packet loop stays inside the buffer and the arrays *)

Lemma push_ok data len v :
  0 <= len < PACKET_CAPACITY -> push data len v = Some (<[Z.to_nat len := v]> data, len + 1).
Proof.
  intros Hl. unfold push.
  destruct (Z.leb_spec 0 len), (Z.ltb_spec len PACKET_CAPACITY); [reflexivity|lia..].
Qed.

Lemma packet_step_ok g idx data len p perm :
  (256 <= length g.(red))%nat -> (256 <= length g.(green))%nat ->
  idx.(permutations) !! p = Some perm -> 0 <= linear_index perm < ACTIVE_SIZE ->
  length data = 256%nat -> 0 <= len -> len + 2 <= PACKET_CAPACITY ->
  exists data' len', packet_step g idx (Some (data, len)) p = Some (data', len') /\
    length data' = 256%nat /\ len <= len' <= len + 2.
Proof.
  intros Hr Hg Hp Hl Hd H0 H2. rewrite ACTIVE_SIZE_eq in Hl. rewrite PACKET_CAPACITY_eq in H2.
  unfold packet_step. cbn [mbind option_bind]. rewrite Hp. cbn [mbind option_bind].
  set (lin := linear_index perm) in *.
  destruct (lookup_lt_is_Some_2 g.(red) (Z.to_nat lin)) as [r Hrl]; [lia|].
  destruct (lookup_lt_is_Some_2 g.(green) (Z.to_nat lin)) as [gr Hgl]; [lia|].
  unfold arr_get. destruct (Z.ltb_spec lin 0); [lia|]. rewrite Hrl.
  cbn [mbind option_bind].
  destruct (active r).
  - rewrite push_ok by (rewrite PACKET_CAPACITY_eq; lia). cbn [mbind option_bind].
    rewrite Hgl. cbn [mbind option_bind]. destruct (active gr).
    + rewrite push_ok by (rewrite PACKET_CAPACITY_eq; lia).
      eexists _, _. split; [reflexivity|]. rewrite !length_insert. split; [exact Hd|lia].
    + eexists _, _. split; [reflexivity|]. rewrite !length_insert. split; [exact Hd|lia].
  - cbn [mbind option_bind]. rewrite Hgl. cbn [mbind option_bind]. destruct (active gr).
    + rewrite push_ok by (rewrite PACKET_CAPACITY_eq; lia).
      eexists _, _. split; [reflexivity|]. rewrite !length_insert. split; [exact Hd|lia].
    + eexists _, _. split; [reflexivity|]. split; [exact Hd|lia].
Qed.

Lemma packet_loop_ok g idx :
  (256 <= length g.(red))%nat -> (256 <= length g.(green))%nat ->
  Forall (fun perm => 0 <= linear_index perm < ACTIVE_SIZE) idx.(permutations) ->
  forall l data len,
  Forall (fun p => p < length idx.(permutations))%nat l ->
  length data = 256%nat -> 0 <= len -> len + 2 * Z.of_nat (length l) <= PACKET_CAPACITY ->
  exists data' len', foldl (packet_step g idx) (Some (data, len)) l = Some (data', len') /\
    length data' = 256%nat /\ len <= len' <= len + 2 * Z.of_nat (length l).
Proof.
  intros Hr Hg Hperm l. induction l as [|p l IH]; intros data len Hl Hd H0 Hc.
  - exists data, len. cbn [foldl length]. split; [reflexivity|]. split; [exact Hd|lia].
  - inversion Hl as [|? ? Hp Hl']; subst.
    destruct (lookup_lt_is_Some_2 _ _ Hp) as [perm Hpm].
    pose proof (Forall_lookup_1 _ _ _ _ Hperm Hpm) as Hb.
    cbn [length] in Hc.
    destruct (packet_step_ok g idx data len p perm Hr Hg Hpm Hb Hd H0) as (d1 & l1 & E1 & Hd1 & Hl1);
      [lia|].
    cbn [foldl]. rewrite E1.
    destruct (IH d1 l1 Hl' Hd1 ltac:(lia) ltac:(lia)) as (d2 & l2 & E2 & Hd2 & Hl2).
    exists d2, l2. split; [exact E2|]. split; [exact Hd2|]. cbn [length]. lia.
Qed.

End Facts.

End MinFacts.

(** * Claims on the dimensional engine *)
Module DimClaims.
Import Dim DimFacts.

(** C2 (as stated, refuted): for the coefficients (4,3,2,1),
    [trace_derivative 1.0 2.0] does not give the trace 26, 17, 10, 6, 0:
    its second and third entries are 23 and 16. *)
Lemma trace_derivative_not_17_10 :
  (trace_derivative 1 2).(trace) <> [26; 17; 10; 6; 0]%float.
Proof.
  intros H.
  apply (f_equal (fun l => PrimFloat.eqb (nth 1 l 0%float) 17%float)) in H.
  vm_compute in H. discriminate.
Qed.

(** C2 (amended): [trace_derivative 1.0 2.0] yields f(2) = 26, f'(2) = 23,
    f''(2) = 16, f'''(2) = 6, f''''(2) = 0, order 4 and terminated = true. *)
Theorem trace_derivative_at_2 :
  trace_derivative 1 2 = mkDeriv 26 4 [26; 23; 16; 6; 0]%float true.
Proof. vm_compute. reflexivity. Qed.

(** C10: for every initial value and time, the trace ends in 0, the order
    is 4, [terminated] is true, and nothing depends on the initial value. *)
Theorem trace_derivative_always_terminated (initial time : float) :
  let d := trace_derivative initial time in
  d.(trace) !! 4%nat = Some 0%float /\ d.(order) = 4 /\ d.(terminated) = true /\
  forall initial' : float, trace_derivative initial' time = d.
Proof. repeat split. Qed.

(** C6: a refresh keeps the activity flag, channel tag, index and polarity
    of every cell of every channel; it writes value, trace and entropy only. *)
Theorem refresh_keeps_flags (sin : float -> float) {RandState : Type}
    (rand : RandState -> Z * RandState) (g : Grid) (cycle : Z) (rs : RandState) :
  let g' := co_grid (nsigii_verification_cycle sin rand g cycle rs) in
  frames g' = frames g /\
  forall s ch : nat,
    (get g' s ch).(active) = (get g s ch).(active) /\
    (get g' s ch).(channel) = (get g s ch).(channel).
Proof.
  pose proof (refresh_frames sin rand g cycle rs) as Hf.
  split; [exact Hf|]. intros s ch.
  pose proof (frames_get _ _ s ch Hf) as H. unfold node_frame in H.
  injection H as Ha Hc _ _. by split.
Qed.

(** C3 (as stated, refuted): with N = 10 and the reference [rand] and
    [sin], initialisation marks 249 Primary cells active, not 250, and the
    first refresh counts 249. *)
Lemma active_count_not_250 :
  let '(g1, rs1) := init_sparse_grid Libm.sin Glibc.rand zero_grid (Glibc.srand 1) in
  count_active RED g1 <> 250%nat /\
  active_count (nsigii_verification_cycle Libm.sin Glibc.rand g1 0 rs1) !! 0%nat = Some 249.
Proof. vm_compute. split; [discriminate | reflexivity]. Qed.

(** C3 (amended): starting from any grid of ACTIVE_SIZE slots of four
    cells with no active cell, for any [sin] and [rand], initialisation
    leaves exactly 249 Primary and 249 Verification cells active (the
    number of triples of [0,10)^3 with (i+j+k) mod 4 = 0, below the
    capacity 250) and never writes slot 249, which keeps its previous
    contents; every refresh run after it, from any cycle number, so each
    of the three of main, counts and keeps 249 of each. *)
Theorem active_counts_249 (sin : float -> float) {RandState : Type}
    (rand : RandState -> Z * RandState) (g0 : Grid) (rs : RandState)
    (Hlen : length g0 = Z.to_nat ACTIVE_SIZE)
    (Hoff : Forall (fun row : list SparseNode =>
                      map active row = [false; false; false; false]) g0) :
  let '(g1, rs1) := init_sparse_grid sin rand g0 rs in
  count_active RED g1 = 249%nat /\ count_active GREEN g1 = 249%nat /\
  g1 !! 249%nat = g0 !! 249%nat /\
  forall (cycle : Z) (n : nat),
  Forall (fun o => active_count o !! 0%nat = Some 249 /\ active_count o !! 1%nat = Some 249 /\
                   count_active RED (co_grid o) = 249%nat /\
                   count_active GREEN (co_grid o) = 249%nat)
         (run_cycles sin rand g1 rs1 cycle n).
Proof.
  pose proof (init_flags_spec sin rand g0 rs) as Hf.
  pose proof (init_slot_249 sin rand g0 rs) as H249.
  rewrite (no_active_flags g0 Hlen Hoff) in Hf.
  destruct (init_sparse_grid sin rand g0 rs) as [g1 rs1].
  cbn [fst] in Hf, H249.
  destruct flags_after_init_counts as (H0 & H1 & Hc).
  unfold count_active. change (ch_num RED) with 0%nat. change (ch_num GREEN) with 1%nat.
  rewrite Hf. split; [exact H0|]. split; [exact H1|]. split; [exact H249|].
  intros cycle n.
  eapply Forall_impl; [apply (run_cycles_flags sin rand n g1 rs1 cycle)|].
  intros o [Ho Hco]. rewrite Hf in Ho, Hco. rewrite Ho, Hco, Hc.
  repeat split; assumption.
Qed.

Lemma active_counts_249_witness :
  (length zero_grid = Z.to_nat ACTIVE_SIZE /\
   Forall (fun row : list SparseNode => map active row = [false; false; false; false])
          zero_grid) /\
  let '(g1, rs1) := init_sparse_grid Libm.sin Glibc.rand zero_grid (Glibc.srand 1) in
  count_active RED g1 = 249%nat /\ count_active GREEN g1 = 249%nat /\
  g1 !! 249%nat = zero_grid !! 249%nat /\
  forall (cycle : Z) (n : nat),
  Forall (fun o => active_count o !! 0%nat = Some 249 /\ active_count o !! 1%nat = Some 249 /\
                   count_active RED (co_grid o) = 249%nat /\
                   count_active GREEN (co_grid o) = 249%nat)
         (run_cycles Libm.sin Glibc.rand g1 rs1 cycle n).
Proof.
  assert (Hl : length zero_grid = Z.to_nat ACTIVE_SIZE) by reflexivity.
  assert (Ho : Forall (fun row : list SparseNode =>
                         map active row = [false; false; false; false]) zero_grid)
    by (apply Forall_replicate; reflexivity).
  pose proof (active_counts_249 Libm.sin Glibc.rand zero_grid (Glibc.srand 1) Hl Ho) as H.
  split; [split; assumption|]. exact H.
Defined.

End DimClaims.

(** * Claims on the minimal engine *)
Module MinClaims.
Import Minimal MinFacts.

(** C1 (code bug): handle_trident_event writes the triple but never the
    stored permutations, so after a move they are those of the old triple:
    from (0,0,0), Right gives the triple (0,1,0) with the permutations of
    (0,0,0), and the protocol then samples slot 0 six times instead of the
    slots 10, 100, 1, 100, 1, 10 of (0,1,0).  main's Start, Right, Up,
    Enter ends at (1,1,0) with the same stale permutations. *)
Theorem trident_event_keeps_permutations {G : Type} (grid : G) :
  (forall ev idx, (handle_trident_event ev grid idx).(permutations) = idx.(permutations)) /\
  (let idx := handle_trident_event EVENT_RIGHT grid (init_tomographic_index 0 0 0) in
   (idx.(ti_i), idx.(ti_j), idx.(ti_k)) = (0, 1, 0) /\
   idx.(permutations) <> (init_tomographic_index 0 1 0).(permutations) /\
   sampled_slots idx = [0; 0; 0; 0; 0; 0] /\
   sampled_slots (init_tomographic_index 0 1 0) = [10; 100; 1; 100; 1; 10]) /\
  (let idx := run_events grid (init_tomographic_index 0 0 0)
                [EVENT_START; EVENT_RIGHT; EVENT_UP; EVENT_ENTER] in
   (idx.(ti_i), idx.(ti_j), idx.(ti_k)) = (1, 1, 0) /\
   idx.(permutations) = replicate 6 (0, 0, 0) /\
   sampled_slots idx = [0; 0; 0; 0; 0; 0]).
Proof.
  split; [intros ev [i j k p]; destruct ev; reflexivity|].
  split; cbn; repeat split; try reflexivity. discriminate.
Qed.

(** C8: every event keeps the coordinates in [0, 10) (a move wraps, it
    never fails and never leaves a negative coordinate); from (0,0,0),
    Right, Right, Left leaves j = 1, and Down at i = 0 gives i = 9. *)
Theorem trident_navigation_wraps {G : Type} (grid : G) (ev : TridentEvent)
    (idx : TomographicIndex)
    (Hi : 0 <= ti_i idx < 10) (Hj : 0 <= ti_j idx < 10) (Hk : 0 <= ti_k idx < 10) :
  (let idx' := handle_trident_event ev grid idx in
   0 <= ti_i idx' < 10 /\ 0 <= ti_j idx' < 10 /\ 0 <= ti_k idx' < 10) /\
  ti_j (run_events grid (init_tomographic_index 0 0 0)
          [EVENT_RIGHT; EVENT_RIGHT; EVENT_LEFT]) = 1 /\
  (forall idx0, ti_i idx0 = 0 -> ti_i (handle_trident_event EVENT_DOWN grid idx0) = 9).
Proof.
  split; [|split; [reflexivity|]].
  - destruct idx as [i j k p]. cbn [ti_i ti_j ti_k] in *.
    destruct ev; cbn [handle_trident_event ti_i ti_j ti_k]; repeat split; try lia;
      match goal with |- context [Z.rem ?z 10] =>
        pose proof (rem10_bounds z ltac:(lia)); lia end.
  - intros [i j k p] Hi0. cbn [ti_i] in Hi0. subst i. reflexivity.
Qed.

Lemma trident_navigation_wraps_witness :
  (let idx' := handle_trident_event EVENT_DOWN tt (init_tomographic_index 0 0 0) in
   0 <= ti_i idx' < 10 /\ 0 <= ti_j idx' < 10 /\ 0 <= ti_k idx' < 10) /\
  ti_j (run_events tt (init_tomographic_index 0 0 0)
          [EVENT_RIGHT; EVENT_RIGHT; EVENT_LEFT]) = 1 /\
  (forall idx0, ti_i idx0 = 0 -> ti_i (handle_trident_event EVENT_DOWN tt idx0) = 9).
Proof.
  apply (trident_navigation_wraps tt EVENT_DOWN (init_tomographic_index 0 0 0));
    cbn; lia.
Defined.

(** C5 (as stated, refuted): when Primary is inactive, combine_channels
    does not zero the derived cell: an active derived cell of value 7
    stays active with value 7, and the same Primary and Verification
    cells leave a different derived cell over a zeroed one, so the outcome
    is not a function of the two input cells. *)
Lemma combine_inactive_keeps_prior :
  let c := mkNode 7 true zero_vector CYAN_CHANNEL 0 in
  combine_channels [c] [zero_node] [zero_node] 1 = [c] /\
  c.(active) = true /\ c.(value) = 7 /\
  combine_channels [zero_node] [zero_node] [zero_node] 1 = [zero_node] /\
  c <> zero_node.
Proof.
  cbn. repeat split; try reflexivity. discriminate.
Qed.

(** C5 (amended): for a slot [i < n] present in the three arrays,
    combine_channels writes the combined node where Primary and
    Verification are both active and otherwise leaves the derived cell it
    was given unchanged (no error, no zeroing). *)
Theorem combine_channels_slot `{Float32} (cy red green : list SparseNode) (n i : nat)
    (r g c : SparseNode)
    (Hi : (i < n)%nat) (Hr : red !! i = Some r) (Hg : green !! i = Some g)
    (Hc : cy !! i = Some c) :
  combine_channels cy red green n !! i =
    Some (if active r && active g then combine_node r g else c) /\
  (active r && active g = false -> combine_channels cy red green n !! i = cy !! i).
Proof.
  rewrite (combine_channels_lookup cy red green n i r g c Hi Hr Hg Hc).
  split; [reflexivity|]. intros Hf. rewrite Hf, Hc. reflexivity.
Qed.

Lemma combine_channels_slot_witness :
  let c := mkNode 7 true zero_vector CYAN_CHANNEL 0 in
  combine_channels [c] [zero_node] [zero_node] 1 !! 0%nat =
    Some (if active zero_node && active zero_node then combine_node zero_node zero_node else c) /\
  (active zero_node && active zero_node = false ->
   combine_channels [c] [zero_node] [zero_node] 1 !! 0%nat = [c] !! 0%nat).
Proof.
  cbv zeta.
  apply (combine_channels_slot _ [zero_node] [zero_node] 1 0 zero_node zero_node _);
    [lia | reflexivity | reflexivity | reflexivity].
Defined.

(** C7: whenever the protocol cycle completes, its aggregate vector is the
    component-wise mean over the active Primary cells of the whole grid
    (the zero vector when there is none), and [balanced] holds exactly when
    its attack_risk is below 0.1. *)
Theorem protocol_cycle_aggregate `{Float32} (g : TomographicGrid) (idx : TomographicIndex)
    (res : ProtocolOut) (Hres : nsigii_protocol_cycle g idx = Some res) :
  res.(avg_vector) = mean_vector g /\
  res.(balanced) = f32_lt (mean_vector g).(attack_risk) f32_0_1.
Proof.
  unfold nsigii_protocol_cycle in Hres.
  destruct (build_packet g idx) as [[d l]|]; cbn [mbind option_bind] in Hres; [|discriminate].
  destruct (governance_average g) as [v|] eqn:Hv; cbn [mbind option_bind] in Hres;
    [|discriminate].
  apply governance_average_some in Hv. subst v.
  injection Hres as <-. split; reflexivity.
Qed.

Lemma protocol_cycle_aggregate_witness :
  let g := fst (init_sparse_grid Glibc.rand zero_grid (Glibc.srand 1)) in
  let idx := init_tomographic_index 1 1 0 in
  exists res, nsigii_protocol_cycle g idx = Some res /\
    res.(avg_vector) = mean_vector g /\
    res.(balanced) = f32_lt (mean_vector g).(attack_risk) f32_0_1.
Proof.
  cbv zeta.
  destruct (nsigii_protocol_cycle (fst (init_sparse_grid Glibc.rand zero_grid (Glibc.srand 1)))
              (init_tomographic_index 1 1 0)) as [res|] eqn:E.
  - exists res. split; [reflexivity|]. exact (protocol_cycle_aggregate _ _ res E).
  - vm_compute in E. discriminate.
Defined.

(** C9 (as stated, refuted): with non-negative entries the linear index
    can still leave the arrays: [21474837 * 100] overflows [int], the
    index of (21474837, 0, 0) is -204, and the cycle reads [red[-204]]. *)
Lemma protocol_cycle_overflow :
  0 <= 21474837 /\ 21474837 * 100 > INT_MAX /\
  linear_index (21474837, 0, 0) = -204 /\
  nsigii_protocol_cycle zero_grid (init_tomographic_index 21474837 0 0) = None.
Proof.
  unfold INT_MAX. split; [lia|]. split; [lia|]. split; vm_compute; reflexivity.
Qed.

(** C9 (amended): for arrays of [ACTIVE_SIZE] cells and six permutations
    whose entries are non-negative with [i*100 + j*10 + k] within [int],
    every sampled slot is in [0, ACTIVE_SIZE), and the cycle completes with
    every access in bounds, appending at most 12 bytes to the 256-byte
    packet. *)
Theorem protocol_cycle_in_bounds `{Float32} (g : TomographicGrid) (idx : TomographicIndex)
    (Hred : (256 <= length g.(red))%nat) (Hgreen : (256 <= length g.(green))%nat)
    (Hlen : length idx.(permutations) = 6%nat)
    (Hperm : Forall (fun p : Z * Z * Z => let '(i, j, k) := p in
               0 <= i /\ 0 <= j /\ 0 <= k /\ i * 100 + j * 10 + k <= INT_MAX)
               idx.(permutations)) :
  Forall (fun s => 0 <= s < ACTIVE_SIZE) (sampled_slots idx) /\
  exists res, nsigii_protocol_cycle g idx = Some res /\
    0 <= res.(packet_length) <= 12 /\ length res.(packet_data) = 256%nat.
Proof.
  assert (Hb : Forall (fun perm => 0 <= linear_index perm < ACTIVE_SIZE) idx.(permutations)).
  { eapply Forall_impl; [exact Hperm|]. intros [[i j] k] (H0 & H1 & H2 & H3).
    apply linear_index_bounds; assumption. }
  split; [unfold sampled_slots; apply List.Forall_map; exact Hb|].
  destruct (packet_loop_ok g idx Hred Hgreen Hb (seq 0 6) packet_init 0)
    as (d & l & E & Hd & Hl).
  - rewrite Hlen. apply List.Forall_forall. intros x Hx. apply in_seq in Hx. lia.
  - reflexivity.
  - lia.
  - rewrite length_seq, PACKET_CAPACITY_eq. lia.
  - unfold nsigii_protocol_cycle, build_packet. rewrite E. cbn [mbind option_bind].
    rewrite governance_average_spec
      by (change (Z.to_nat ACTIVE_SIZE) with 256%nat; exact Hred).
    cbn [mbind option_bind]. eexists. split; [reflexivity|].
    cbn [packet_length packet_data]. rewrite length_seq in Hl. split; [lia | exact Hd].
Qed.

Lemma protocol_cycle_in_bounds_witness :
  let g := fst (init_sparse_grid Glibc.rand zero_grid (Glibc.srand 1)) in
  let idx := init_tomographic_index 1 1 0 in
  Forall (fun s => 0 <= s < ACTIVE_SIZE) (sampled_slots idx) /\
  exists res, nsigii_protocol_cycle g idx = Some res /\
    0 <= res.(packet_length) <= 12 /\ length res.(packet_data) = 256%nat.
Proof.
  cbv zeta.
  apply protocol_cycle_in_bounds.
  - vm_compute. lia.
  - vm_compute. lia.
  - reflexivity.
  - cbn [permutations init_tomographic_index].
    repeat (apply List.Forall_cons; [cbn; unfold INT_MAX; lia|]). apply List.Forall_nil.
Defined.

End MinClaims.

(** * The Derived channel in both engines *)
Module DerivedFacts.
Import Dim DimFacts.

Lemma get_active g s ch :
  (get g s ch).(active) =
  match active_flags g !! s with Some r => default false (r !! ch) | None => false end.
Proof.
  unfold get, active_flags, node_at. rewrite lookup_map.
  destruct (g !! s) as [row|]; simpl; [|reflexivity].
  rewrite lookup_map. destruct (row !! ch); reflexivity.
Qed.

(** After initialisation from a grid with no active cell, the four cells
    of a slot are all active or all inactive. *)
Lemma flags_uniform g s :
  active_flags g = flags_after_init ->
  (get g s 1).(active) = (get g s 0).(active) /\ (get g s 3).(active) = (get g s 0).(active).
Proof.
  intros Hf. rewrite !get_active, Hf.
  destruct (flags_after_init !! s) as [r|] eqn:E; [|split; reflexivity].
  destruct (Forall_lookup_1 _ _ _ _ flags_after_init_rows E) as [->| ->]; split; reflexivity.
Qed.

Lemma rows_ok_insert g L row :
  rows_ok g -> length row = 4%nat -> derived_is_mean row -> rows_ok (<[L := row]> g).
Proof.
  intros Hg Hl Hm s r Hs. apply list_lookup_insert_Some in Hs as [(<- & <- & _)|(_ & Hs)].
  - split; assumption.
  - exact (Hg s r Hs).
Qed.

Lemma rows_ok_zero_grid : rows_ok zero_grid.
Proof.
  intros s row Hs. unfold zero_grid in Hs. apply lookup_replicate in Hs as [-> _].
  split; [reflexivity|]. intros Ha. discriminate Ha.
Qed.

Section Init.
Variable sin : float -> float.
Context {RandState : Type}.
Variable rand : RandState -> Z * RandState.

Lemma init_step_rows_ok g lin rs ijk :
  rows_ok g -> rows_ok (fst (fst (init_step sin rand (g, lin, rs) ijk))).
Proof.
  intros Hg. destruct ijk as [[i j] k]. unfold init_step.
  destruct (_ && _); [|exact Hg].
  destruct (rand_entropy rand rs) as [er rs1].
  destruct (rand_entropy rand rs1) as [eg rs2].
  destruct (rand_entropy rand rs2) as [eb rs3].
  cbn [fst].
  destruct (g !! Z.to_nat lin) as [row|] eqn:EL.
  - destruct (Hg _ _ EL) as [Hl _].
    destruct row as [|a [|b [|c [|d [|e row]]]]]; try discriminate Hl.
    apply rows_ok_insert; [exact Hg|reflexivity|].
    intros _. reflexivity.
  - rewrite list_insert_ge; [exact Hg|]. apply lookup_ge_None. exact EL.
Qed.

Lemma init_fold_rows_ok l : forall g lin rs,
  rows_ok g -> rows_ok (fst (fst (foldl (init_step sin rand) (g, lin, rs) l))).
Proof.
  induction l as [|x l IH]; intros g lin rs Hg; cbn [foldl]; [exact Hg|].
  pose proof (init_step_rows_ok g lin rs x Hg) as Hx.
  destruct (init_step sin rand (g, lin, rs) x) as [[g1 lin1] rs1].
  apply IH. exact Hx.
Qed.

Lemma init_rows_ok rs : rows_ok (fst (init_sparse_grid sin rand zero_grid rs)).
Proof.
  unfold init_sparse_grid.
  pose proof (init_fold_rows_ok loop_triples zero_grid 0 rs rows_ok_zero_grid) as H.
  destruct (foldl (init_step sin rand) (zero_grid, 0, rs) loop_triples) as [[g' lin'] rs'].
  exact H.
Qed.

(** A refresh writes the same wave value to every active cell of a slot. *)
Lemma cycle_node_value cycle i ch n st :
  (fst (cycle_node sin rand cycle i ch n st)).(value) =
  if n.(active) then
    fourier_square sin (double_of_int cycle * 0.1 + double_of_int i * 0.01)%float
      (HARMONICS + Z.rem cycle 5)
  else n.(value).
Proof.
  destruct st as [[rs counts] total]. unfold cycle_node.
  destruct (active n); [destruct (rand rs)|]; reflexivity.
Qed.

Lemma cycle_row_value cycle i row : forall ch st k,
  (node_at (fst (cycle_row sin rand cycle i ch row st)) k).(value) =
  if (node_at row k).(active) then
    fourier_square sin (double_of_int cycle * 0.1 + double_of_int i * 0.01)%float
      (HARMONICS + Z.rem cycle 5)
  else (node_at row k).(value).
Proof.
  induction row as [|n row IH]; intros ch st k; cbn [cycle_row]; [reflexivity|].
  pose proof (cycle_node_value cycle i ch n st) as Hn.
  destruct (cycle_node sin rand cycle i ch n st) as [n' st1].
  specialize (IH (S ch) st1).
  destruct (cycle_row sin rand cycle i (S ch) row st1) as [row' st2].
  destruct k as [|k]; [exact Hn|]. exact (IH k).
Qed.

Lemma cycle_grid_value cycle g : forall i st s k,
  (get (fst (cycle_grid sin rand cycle i g st)) s k).(value) =
  if (get g s k).(active) then
    fourier_square sin (double_of_int cycle * 0.1 + double_of_int (i + Z.of_nat s) * 0.01)%float
      (HARMONICS + Z.rem cycle 5)
  else (get g s k).(value).
Proof.
  induction g as [|row g IH]; intros i st s k; cbn [cycle_grid]; [reflexivity|].
  pose proof (cycle_row_value cycle i row 0 st k) as Hr.
  destruct (cycle_row sin rand cycle i 0 row st) as [row' st1].
  specialize (IH (i + 1) st1).
  destruct (cycle_grid sin rand cycle (i + 1) g st1) as [g' st2].
  destruct s as [|s].
  - rewrite Z.add_0_r. exact Hr.
  - replace (i + Z.of_nat (S s)) with (i + 1 + Z.of_nat s) by lia. exact (IH s k).
Qed.

Lemma refresh_value g cycle rs s k :
  (get (co_grid (nsigii_verification_cycle sin rand g cycle rs)) s k).(value) =
  if (get g s k).(active) then
    fourier_square sin (double_of_int cycle * 0.1 + double_of_int (Z.of_nat s) * 0.01)%float
      (HARMONICS + Z.rem cycle 5)
  else (get g s k).(value).
Proof.
  unfold nsigii_verification_cycle.
  pose proof (cycle_grid_value cycle g 0 (rs, [0; 0; 0; 0], 0%float) s k) as H.
  destruct (cycle_grid sin rand cycle 0 g (rs, [0; 0; 0; 0], 0%float)) as [g' [[rs' c] t]].
  exact H.
Qed.

Lemma refresh_active g cycle rs s k :
  (get (co_grid (nsigii_verification_cycle sin rand g cycle rs)) s k).(active) =
  (get g s k).(active).
Proof.
  pose proof (frames_get _ _ s k (refresh_frames sin rand g cycle rs)) as H.
  unfold node_frame in H. injection H as Ha _ _ _. exact Ha.
Qed.

Lemma run_cycles_inputs n : forall g rs cycle,
  Forall (fun o => exists h c r, active_flags h = active_flags g /\
                     o = nsigii_verification_cycle sin rand h c r)
         (run_cycles sin rand g rs cycle n).
Proof.
  induction n as [|n IH]; intros g rs cycle; cbn [run_cycles]; constructor.
  - exists g, cycle, rs. split; reflexivity.
  - set (o := nsigii_verification_cycle sin rand g cycle rs).
    assert (Hf : active_flags (co_grid o) = active_flags g)
      by (apply flags_of_frames, refresh_frames).
    eapply Forall_impl; [apply (IH (co_grid o) (co_rand o) (cycle + 1))|].
    intros x (h & c & r & Hh & ->). exists h, c, r. split; [congruence|reflexivity].
Qed.

End Init.

(** The minimal engine's init_sparse_grid leaves [cyan] as it was and the
    array lengths unchanged until combine_channels. *)
Section MinInit.
#[local] Existing Instance Minimal.float_binary64.
Context {RandState : Type}.
Variable rand : RandState -> Z * RandState.

Lemma min_init_slot_shape st i :
  let g' := fst (Minimal.init_slot rand st i) in
  Minimal.cyan g' = Minimal.cyan (fst st) /\
  length (Minimal.red g') = length (Minimal.red (fst st)) /\
  length (Minimal.green g') = length (Minimal.green (fst st)).
Proof.
  destruct st as [g rs]. unfold Minimal.init_slot, Minimal.rand_risk.
  repeat match goal with |- context [rand ?s] => destruct (rand s) end.
  cbn [fst Minimal.cyan Minimal.red Minimal.green]. rewrite !length_insert. auto.
Qed.

Lemma min_init_fold_shape l : forall st,
  let g' := fst (foldl (Minimal.init_slot rand) st l) in
  Minimal.cyan g' = Minimal.cyan (fst st) /\
  length (Minimal.red g') = length (Minimal.red (fst st)) /\
  length (Minimal.green g') = length (Minimal.green (fst st)).
Proof.
  induction l as [|x l IH]; intros st; cbn [foldl]; [auto|].
  destruct (min_init_slot_shape st x) as (H1 & H2 & H3).
  destruct (IH (Minimal.init_slot rand st x)) as (H4 & H5 & H6).
  split; [congruence|split; congruence].
Qed.

Lemma min_init_derived rs (i : nat) :
  (i < 256)%nat ->
  let g1 := fst (Minimal.init_sparse_grid rand Minimal.zero_grid rs) in
  exists r gr c, Minimal.red g1 !! i = Some r /\ Minimal.green g1 !! i = Some gr /\
    Minimal.cyan g1 !! i = Some c /\
    c = (if Minimal.active r && Minimal.active gr then Minimal.combine_node r gr
         else Minimal.zero_node).
Proof.
  intros Hi. unfold Minimal.init_sparse_grid.
  pose proof (min_init_fold_shape (seq 0 (Z.to_nat Minimal.ACTIVE_SIZE))
    (Minimal.mkGrid (Minimal.red Minimal.zero_grid) (Minimal.green Minimal.zero_grid)
       (Minimal.blue Minimal.zero_grid) (Minimal.cyan Minimal.zero_grid) 0, rs)) as H.
  destruct (foldl (Minimal.init_slot rand) _ _) as [g' rs'].
  cbn [fst Minimal.cyan Minimal.red Minimal.green] in H |- *.
  destruct H as (Hc & Hr & Hg).
  destruct (lookup_lt_is_Some_2 (Minimal.red g') i) as [r Hri];
    [rewrite Hr; unfold Minimal.zero_grid; cbn [Minimal.red]; rewrite length_replicate; exact Hi|].
  destruct (lookup_lt_is_Some_2 (Minimal.green g') i) as [gr Hgi];
    [rewrite Hg; unfold Minimal.zero_grid; cbn [Minimal.green]; rewrite length_replicate; exact Hi|].
  assert (Hci : Minimal.cyan g' !! i = Some Minimal.zero_node).
  { rewrite Hc. unfold Minimal.zero_grid. cbn [Minimal.cyan].
    apply lookup_replicate. split; [reflexivity|exact Hi]. }
  exists r, gr. eexists. split; [exact Hri|]. split; [exact Hgi|]. split; [|reflexivity].
  apply MinFacts.combine_channels_lookup; assumption.
Qed.

End MinInit.

End DerivedFacts.

Module DerivedClaims.
Import Dim DimFacts DerivedFacts.
#[local] Existing Instance Minimal.float_binary64.

(** C4 (as stated, refuted): in the minimal engine the derived value is
    the integer mean truncated toward zero, not the exact mean: with the
    reference [rand] seeded with 1, slot 0 has Primary 103, Verification
    198 and an active derived cell of value 150, while the mean is 150.5. *)
Lemma derived_value_truncated :
  let g1 := fst (Minimal.init_sparse_grid Glibc.rand Minimal.zero_grid (Glibc.srand 1)) in
  option_map Minimal.value (Minimal.red g1 !! 0%nat) = Some 103 /\
  option_map Minimal.value (Minimal.green g1 !! 0%nat) = Some 198 /\
  option_map Minimal.active (Minimal.cyan g1 !! 0%nat) = Some true /\
  option_map Minimal.value (Minimal.cyan g1 !! 0%nat) = Some 150 /\
  2 * 150 <> 103 + 198.
Proof.
  cbv zeta. split; [vm_compute; reflexivity|]. split; [vm_compute; reflexivity|].
  split; [vm_compute; reflexivity|]. split; [vm_compute; reflexivity|]. lia.
Qed.

(** C4 (amended): starting from zeroed grids, for any [sin] and [rand].
    Dimensional engine: after initialisation every slot's Derived cell is
    active exactly when Primary and Verification are, and then holds
    [(Primary.value + Verification.value) / 2.0] computed in [double];
    after every refresh run after it, from any cycle number (so after
    each of main's three), the flags still agree and the three values of
    an active slot are the same number.  Minimal engine:
    after initialisation, for every slot, the Derived cell is active exactly
    when Primary and Verification are, and its value is their sum divided
    by 2 in integer arithmetic (truncated). *)
Theorem derived_channel_invariant (sin : float -> float) {RandState : Type}
    (rand : RandState -> Z * RandState) (rs : RandState) :
  (let '(g1, rs1) := init_sparse_grid sin rand zero_grid rs in
   (forall s : nat,
      (get g1 s 3).(active) = (get g1 s 0).(active) && (get g1 s 1).(active) /\
      ((get g1 s 3).(active) = true ->
       (get g1 s 3).(value) = (((get g1 s 0).(value) + (get g1 s 1).(value)) / 2)%float)) /\
   forall (cycle : Z) (n : nat),
   Forall (fun o : CycleOut => forall s : nat,
      (get (co_grid o) s 3).(active) =
        (get (co_grid o) s 0).(active) && (get (co_grid o) s 1).(active) /\
      ((get (co_grid o) s 3).(active) = true ->
       (get (co_grid o) s 0).(value) = (get (co_grid o) s 3).(value) /\
       (get (co_grid o) s 1).(value) = (get (co_grid o) s 3).(value)))
     (run_cycles sin rand g1 rs1 cycle n)) /\
  (let g1 := fst (Minimal.init_sparse_grid rand Minimal.zero_grid rs) in
   forall i : nat, (i < 256)%nat ->
   exists r gr c, Minimal.red g1 !! i = Some r /\ Minimal.green g1 !! i = Some gr /\
     Minimal.cyan g1 !! i = Some c /\
     Minimal.active c = Minimal.active r && Minimal.active gr /\
     (Minimal.active c = true ->
      Minimal.value c = Z.quot (Minimal.value r + Minimal.value gr) 2)).
Proof.
  split.
  - pose proof (init_flags_spec sin rand zero_grid rs) as Hf.
    pose proof (init_rows_ok sin rand rs) as Hm.
    destruct (init_sparse_grid sin rand zero_grid rs) as [g1 rs1].
    cbn [fst] in Hf, Hm.
    split.
    + intros s. destruct (flags_uniform g1 s Hf) as [H1 H3]. split.
      { rewrite H3, H1. destruct (active (get g1 s 0)); reflexivity. }
      intros Ha. unfold get in Ha |- *. destruct (g1 !! s) as [row|] eqn:E.
      * exact (proj2 (Hm s row E) Ha).
      * discriminate Ha.
    + intros cycle n.
      eapply Forall_impl; [exact (run_cycles_inputs sin rand n g1 rs1 cycle)|].
      intros o (h & c & r & Hh & ->) s. rewrite Hf in Hh.
      destruct (flags_uniform h s Hh) as [H1 H3].
      rewrite !refresh_value, !refresh_active, H1, H3. split.
      { destruct (active (get h s 0)); reflexivity. }
      intros Ha. rewrite Ha. split; reflexivity.
  - cbv zeta. intros i Hi.
    pose proof (min_init_derived rand rs i Hi) as H. cbv zeta in H.
    destruct H as (r & gr & c & Hr & Hg & Hc & Hce).
    exists r, gr, c. split; [exact Hr|]. split; [exact Hg|]. split; [exact Hc|].
    subst c. destruct (Minimal.active r && Minimal.active gr) eqn:E.
    + split; [reflexivity|]. intros _. reflexivity.
    + split; [reflexivity|]. intros Ha. discriminate Ha.
Qed.

Lemma derived_channel_invariant_witness :
  let g1 := fst (Minimal.init_sparse_grid Glibc.rand Minimal.zero_grid (Glibc.srand 1)) in
  exists r gr c, Minimal.red g1 !! 0%nat = Some r /\ Minimal.green g1 !! 0%nat = Some gr /\
    Minimal.cyan g1 !! 0%nat = Some c /\
    Minimal.active c = Minimal.active r && Minimal.active gr /\
    (Minimal.active c = true ->
     Minimal.value c = Z.quot (Minimal.value r + Minimal.value gr) 2).
Proof.
  destruct (derived_channel_invariant Libm.sin Glibc.rand (Glibc.srand 1)) as [_ Hm].
  exact (Hm 0%nat ltac:(lia)).
Defined.

End DerivedClaims.

(** * Further facts on the dimensional engine *)
Module DimMoreFacts.
Import Dim DimFacts.

(** Binary64 multiplication is commutative, rounding included. *)
Lemma float_mul_comm (x y : float) : (x * y)%float = (y * x)%float.
Proof.
  apply FloatAxioms.Prim2SF_inj. rewrite !FloatAxioms.mul_spec. unfold SF64mul, SFmul.
  destruct (Prim2SF x) as [sx|sx| |sx mx ex], (Prim2SF y) as [sy|sy| |sy my ey];
    try reflexivity; rewrite ?(Bool.xorb_comm sx sy); try reflexivity.
  rewrite Pos.mul_comm, Z.add_comm. reflexivity.
Qed.

Section Fourier.
Variable sin : float -> float.

Lemma fourier_loop_fuel fuel : forall x h n r, h < n + 2 * Z.of_nat fuel ->
  fourier_loop sin (S fuel) x h n r = fourier_loop sin fuel x h n r.
Proof.
  induction fuel as [|f IH]; intros x h n r Hf; cbn [fourier_loop].
  - destruct (Z.leb_spec n h); [lia|reflexivity].
  - destruct (Z.leb_spec n h); [|reflexivity]. apply IH. lia.
Qed.

Lemma fourier_loop_fuel_add k fuel x h n r : h < n + 2 * Z.of_nat fuel ->
  fourier_loop sin (k + fuel) x h n r = fourier_loop sin fuel x h n r.
Proof.
  intros Hf. induction k as [|k IH]; [reflexivity|].
  cbn [Nat.add]. rewrite fourier_loop_fuel by lia. exact IH.
Qed.

(** From an odd [n], the bounds [2m] and [2m - 1] admit the same terms. *)
Lemma fourier_loop_odd_bound fuel : forall x m n r, Z.Odd n ->
  fourier_loop sin fuel x (2 * m) n r = fourier_loop sin fuel x (2 * m - 1) n r.
Proof.
  induction fuel as [|f IH]; intros x m n r [q Hq]; cbn [fourier_loop]; [reflexivity|].
  destruct (Z.leb_spec n (2 * m)), (Z.leb_spec n (2 * m - 1)); try lia.
  - apply IH. exists (q + 1). lia.
  - reflexivity.
Qed.

End Fourier.

(** ** The Primary cells after init_sparse_grid *)

Lemma zip_with_insert_l {A B C} (f : A -> B -> C) (l : list A) (k : list B) (n : nat)
    (x : A) (b : B) :
  k !! n = Some b -> zip_with f (<[n := x]> l) k = <[n := f x b]> (zip_with f l k).
Proof.
  revert k n. induction l as [|y l IH]; intros [|b' k] [|n] Hb; simpl in *;
    try discriminate; try reflexivity.
  - injection Hb as ->. reflexivity.
  - f_equal. apply IH. exact Hb.
Qed.

Lemma zip_with_none_id (l : list (bool * ColorChannel * TomographicIndex * float)) :
  zip_with red_frame_after (replicate (length l) None) l = l.
Proof. induction l as [|a l IH]; simpl; [reflexivity|]. by rewrite IH. Qed.

Lemma red_frames_get g s :
  (s < length g)%nat -> red_frames g !! s = Some (node_frame (get g s 0)).
Proof.
  intros Hs. unfold red_frames, get. rewrite lookup_map.
  destruct (lookup_lt_is_Some_2 g s Hs) as [row Hrow]. rewrite Hrow. reflexivity.
Qed.

Section InitRed.
Variable sin : float -> float.
Context {RandState : Type}.
Variable rand : RandState -> Z * RandState.

Lemma init_step_red g w lin rs ijk base :
  length w = length g -> length base = length g ->
  Forall (fun row : list SparseNode => row <> []) g ->
  red_frames g = zip_with red_frame_after w base ->
  let '(g', lin', _) := init_step sin rand (g, lin, rs) ijk in
  let '(w', lin'') := init_red_step (w, lin) ijk in
  lin' = lin'' /\ length w' = length g' /\ length g' = length base /\
  Forall (fun row : list SparseNode => row <> []) g' /\
  red_frames g' = zip_with red_frame_after w' base.
Proof.
  intros Hw Hb Hne Hr. destruct ijk as [[i j] k]. unfold init_step, init_red_step.
  destruct (_ && _); [|repeat split; auto; lia].
  destruct (rand_entropy rand rs) as [er rs1].
  destruct (rand_entropy rand rs1) as [eg rs2].
  destruct (rand_entropy rand rs2) as [eb rs3].
  destruct (g !! Z.to_nat lin) as [row|] eqn:EL.
  - pose proof (Forall_lookup_1 _ _ _ _ Hne EL) as Hrow.
    destruct row as [|n0 row]; [congruence|].
    destruct (lookup_lt_is_Some_2 base (Z.to_nat lin)) as [b Hbl].
    { apply lookup_lt_Some in EL. lia. }
    split; [reflexivity|]. rewrite !length_insert. split; [lia|]. split; [lia|]. split.
    + apply Forall_insert; [exact Hne|]. cbn. discriminate.
    + unfold red_frames. rewrite map_insert. fold (red_frames g).
      rewrite Hr, (zip_with_insert_l _ _ _ _ _ b Hbl). reflexivity.
  - apply lookup_ge_None in EL.
    rewrite !list_insert_ge by lia. repeat split; auto; lia.
Qed.

Lemma init_fold_red l : forall g w lin rs base,
  length w = length g -> length base = length g ->
  Forall (fun row : list SparseNode => row <> []) g ->
  red_frames g = zip_with red_frame_after w base ->
  let '(g', lin', _) := foldl (init_step sin rand) (g, lin, rs) l in
  let '(w', lin'') := foldl init_red_step (w, lin) l in
  lin' = lin'' /\ length w' = length g' /\ length g' = length base /\
  Forall (fun row : list SparseNode => row <> []) g' /\
  red_frames g' = zip_with red_frame_after w' base.
Proof.
  induction l as [|x l IH]; intros g w lin rs base Hw Hb Hne Hr; cbn [foldl].
  - repeat split; auto; lia.
  - pose proof (init_step_red g w lin rs x base Hw Hb Hne Hr) as Hx.
    destruct (init_step sin rand (g, lin, rs) x) as [[g1 lin1] rs1].
    destruct (init_red_step (w, lin) x) as [w1 lin1'].
    destruct Hx as (<- & Hw1 & Hg1 & Hne1 & Hr1).
    apply IH; [exact Hw1 | lia | exact Hne1 | exact Hr1].
Qed.

Lemma init_red_frames g rs :
  Forall (fun row : list SparseNode => row <> []) g ->
  red_frames (fst (init_sparse_grid sin rand g rs)) =
  zip_with red_frame_after (init_red_writes (length g)) (red_frames g).
Proof.
  intros Hne. unfold init_sparse_grid, init_red_writes.
  assert (Hl : length (red_frames g) = length g) by apply length_map.
  assert (Hw : length (replicate (length g) (@None (Z * Z * Z))) = length g)
    by apply length_replicate.
  assert (Hr : red_frames g = zip_with red_frame_after (replicate (length g) None) (red_frames g)).
  { rewrite <- Hl at 1. symmetry. apply zip_with_none_id. }
  pose proof (init_fold_red loop_triples g _ 0 rs (red_frames g) Hw Hl Hne Hr) as H.
  destruct (foldl (init_step sin rand) (g, 0, rs) loop_triples) as [[g' lin'] rs'].
  destruct (foldl init_red_step (replicate (length g) None, 0) loop_triples) as [w' lin''].
  destruct H as (_ & _ & _ & _ & H). exact H.
Qed.

End InitRed.

Lemma triples_on_length : length triples_on = 249%nat.
Proof. vm_compute. reflexivity. Qed.

Lemma init_red_writes_250 : init_red_writes 250 = map Some triples_on ++ [None].
Proof. vm_compute. reflexivity. Qed.

Section InitSlots.
Variable sin : float -> float.
Context {RandState : Type}.
Variable rand : RandState -> Z * RandState.
Variables (g0 : Grid) (rs : RandState).
Hypothesis Hlen : length g0 = Z.to_nat ACTIVE_SIZE.
Hypothesis Hne : Forall (fun row : list SparseNode => row <> []) g0.

Lemma init_red_lookup :
  length (fst (init_sparse_grid sin rand g0 rs)) = 250%nat /\
  forall s, (s < 250)%nat ->
  Some (node_frame (get (fst (init_sparse_grid sin rand g0 rs)) s 0)) =
  w ← (map Some triples_on ++ [None]) !! s;
  Some (red_frame_after w (node_frame (get g0 s 0))).
Proof.
  pose proof (init_red_frames sin rand g0 rs Hne) as Hr.
  revert Hr. generalize (fst (init_sparse_grid sin rand g0 rs)) as g1. intros g1 Hr.
  rewrite Hlen in Hr. change (Z.to_nat ACTIVE_SIZE) with 250%nat in *.
  rewrite init_red_writes_250 in Hr.
  assert (Hl1 : length g1 = 250%nat).
  { apply (f_equal length) in Hr. unfold red_frames in Hr.
    rewrite length_zip_with, !length_map, length_app, length_map, triples_on_length, Hlen in Hr.
    cbn [length] in Hr. lia. }
  split; [exact Hl1|]. intros s Hs.
  apply (f_equal (fun l => l !! s)) in Hr. cbn beta in Hr.
  rewrite red_frames_get in Hr by lia. rewrite Hr, lookup_zip_with.
  rewrite red_frames_get by lia.
  destruct ((map Some triples_on ++ [None]) !! s); reflexivity.
Qed.

Lemma init_red_slot s t :
  triples_on !! s = Some t ->
  node_frame (get (fst (init_sparse_grid sin rand g0 rs)) s 0) =
  red_frame_after (Some t) (node_frame (get g0 s 0)).
Proof.
  intros Ht. destruct init_red_lookup as [_ H].
  assert (Hs : (s < 249)%nat) by (rewrite <- triples_on_length; eapply lookup_lt_Some; exact Ht).
  specialize (H s ltac:(lia)).
  rewrite lookup_app_l in H by (rewrite length_map, triples_on_length; exact Hs).
  rewrite lookup_map, Ht in H. cbn [option_map mbind option_bind] in H.
  exact (f_equal (default (node_frame zero_node)) H).
Qed.

Lemma init_red_last :
  node_frame (get (fst (init_sparse_grid sin rand g0 rs)) 249 0) = node_frame (get g0 249 0).
Proof.
  destruct init_red_lookup as [_ H]. specialize (H 249%nat ltac:(lia)).
  rewrite lookup_app_r in H by (rewrite length_map, triples_on_length; lia).
  rewrite length_map, triples_on_length in H.
  change ([None] !! (249 - 249)%nat) with (Some (@None (Z * Z * Z))) in H.
  cbn [mbind option_bind] in H. exact (f_equal (default (node_frame zero_node)) H).
Qed.

Lemma init_red_active s :
  (s < 249)%nat -> (get (fst (init_sparse_grid sin rand g0 rs)) s 0).(active) = true.
Proof.
  intros Hs. rewrite <- triples_on_length in Hs.
  destruct (lookup_lt_is_Some_2 _ _ Hs) as [[[i j] k] Ht].
  pose proof (init_red_slot s _ Ht) as H.
  exact (f_equal (fun fr => fr.1.1.1) H).
Qed.

End InitSlots.

Section Cycles.
Variable sin : float -> float.
Context {RandState : Type}.
Variable rand : RandState -> Z * RandState.

(** The grid main's loop of refreshes leaves is one refresh of a grid with
    the frames of the one it started from. *)
Lemma run_cycles_last n : forall g rs c,
  exists h r, frames h = frames g /\
    last (run_cycles sin rand g rs c (S n)) =
    Some (nsigii_verification_cycle sin rand h (c + Z.of_nat n) r).
Proof.
  induction n as [|n IH]; intros g rs c.
  - exists g, rs. split; [reflexivity|]. rewrite Z.add_0_r. reflexivity.
  - destruct (IH (co_grid (nsigii_verification_cycle sin rand g c rs))
                 (co_rand (nsigii_verification_cycle sin rand g c rs)) (c + 1))
      as (h & r & Hh & E).
    exists h, r. split; [rewrite Hh; apply refresh_frames|].
    replace (c + Z.of_nat (S n)) with (c + 1 + Z.of_nat n) by lia.
    rewrite <- E. reflexivity.
Qed.

End Cycles.

End DimMoreFacts.

(** * Further properties of the dimensional engine *)
Module DimExtras.
Import Dim DimFacts DimMoreFacts DerivedFacts.

(** matrix_multiply and matrix_transpose: the transpose of a product is
    the product of the transposes in reverse order, exactly, rounding
    included (each entry is the same two products added in the same order). *)
Theorem matrix_transpose_multiply (a b : Matrix2x2) :
  matrix_transpose (matrix_multiply a b) =
  matrix_multiply (matrix_transpose b) (matrix_transpose a).
Proof.
  destruct a as [a00 a01 a10 a11], b as [b00 b01 b10 b11].
  unfold matrix_transpose, matrix_multiply. cbn [m00 m01 m10 m11].
  f_equal; f_equal; apply float_mul_comm.
Qed.

(** matrix_determinant: a matrix and its transpose have the same
    determinant, exactly. *)
Theorem matrix_determinant_transpose (m : Matrix2x2) :
  matrix_determinant (matrix_transpose m) = matrix_determinant m.
Proof.
  destruct m as [a b c d]. unfold matrix_determinant, matrix_transpose.
  cbn [m00 m01 m10 m11]. rewrite (float_mul_comm c b). reflexivity.
Qed.

(** fourier_square: the loop only takes odd [n], so an even harmonic
    count [2m] gives exactly the value of [2m - 1], for every [sin]. *)
Theorem fourier_square_even_harmonics (sin : float -> float) (x : float) (m : Z) :
  fourier_square sin x (2 * m) = fourier_square sin x (2 * m - 1).
Proof.
  unfold fourier_square. f_equal.
  rewrite fourier_loop_odd_bound by (exists 0; lia).
  replace (Z.to_nat (2 * m) + 1)%nat
    with ((Z.to_nat (2 * m) - Z.to_nat (2 * m - 1)) + (Z.to_nat (2 * m - 1) + 1))%nat by lia.
  apply fourier_loop_fuel_add. lia.
Qed.

(** fourier_square with no positive harmonic count runs no iteration and
    returns +0.0, whatever [x] and [sin]. *)
Theorem fourier_square_no_harmonics (sin : float -> float) (x : float) (h : Z)
    (Hh : h <= 0) :
  fourier_square sin x h = 0%float.
Proof.
  unfold fourier_square. replace (Z.to_nat h) with 0%nat by lia.
  cbn [Nat.add fourier_loop]. destruct (Z.leb_spec 1 h); [lia|].
  vm_compute. reflexivity.
Qed.

Lemma fourier_square_no_harmonics_witness :
  -3 <= 0 /\ fourier_square Libm.sin 0.5 (-3) = 0%float.
Proof.
  split; [lia|]. apply (fourier_square_no_harmonics Libm.sin 0.5 (-3)). lia.
Defined.

(** init_sparse_grid, on any previous contents of a grid of ACTIVE_SIZE
    non-empty rows and for any [sin] and [rand]: the triples of [0,10)^3
    with (i+j+k) mod 4 = 0, 249 of them in loop order, go to slots
    0..248; slot [s] gets an active RED cell, tagged RED, with polarity
    1.0 and the index of the [s]-th triple; the last slot (249) is never
    written: its four cells, RED included, keep all they held. *)
Theorem init_primary_slots (sin : float -> float) {RandState : Type}
    (rand : RandState -> Z * RandState) (g0 : Grid) (rs : RandState)
    (Hlen : length g0 = Z.to_nat ACTIVE_SIZE)
    (Hne : Forall (fun row : list SparseNode => row <> []) g0) :
  length triples_on = 249%nat /\
  (forall (s : nat) (i j k : Z), triples_on !! s = Some (i, j, k) ->
     node_frame (get (fst (init_sparse_grid sin rand g0 rs)) s 0) =
     (true, RED, init_tomographic_index i j k, 1.0%float)) /\
  fst (init_sparse_grid sin rand g0 rs) !! 249%nat = g0 !! 249%nat.
Proof.
  split; [exact triples_on_length|]. split.
  - intros s i j k Hs. exact (init_red_slot sin rand g0 rs Hlen Hne s _ Hs).
  - exact (init_slot_249 sin rand g0 rs).
Qed.

Lemma init_primary_slots_witness :
  length triples_on = 249%nat /\
  (forall (s : nat) (i j k : Z), triples_on !! s = Some (i, j, k) ->
     node_frame (get (fst (init_sparse_grid Libm.sin Glibc.rand zero_grid (Glibc.srand 1))) s 0) =
     (true, RED, init_tomographic_index i j k, 1.0%float)) /\
  fst (init_sparse_grid Libm.sin Glibc.rand zero_grid (Glibc.srand 1)) !! 249%nat =
  zero_grid !! 249%nat.
Proof.
  apply (init_primary_slots Libm.sin Glibc.rand zero_grid (Glibc.srand 1)).
  - reflexivity.
  - apply Forall_replicate. discriminate.
Defined.

(** nsigii_verification_cycle writes, in every active cell of slot [s],
    the wave value fourier_square(cycle * 0.1 + s * 0.01, 9 + cycle % 5),
    the same for the four channels, and leaves inactive cells' values. *)
Theorem refresh_writes_wave (sin : float -> float) {RandState : Type}
    (rand : RandState -> Z * RandState) (g : Grid) (cycle : Z) (rs : RandState) (s k : nat) :
  (get (co_grid (nsigii_verification_cycle sin rand g cycle rs)) s k).(value) =
  if (get g s k).(active) then
    fourier_square sin (double_of_int cycle * 0.1 + double_of_int (Z.of_nat s) * 0.01)%float
      (HARMONICS + Z.rem cycle 5)
  else (get g s k).(value).
Proof. apply refresh_value. Qed.

(** main of the dimensional engine, on any previous contents of its
    grid (ACTIVE_SIZE non-empty rows), any [sin], [rand] and seed: it runs
    three refreshes, and tomographic_verification then reads the six
    permutations of (5,0,3), the triple of slot 125, at linear indices
    3, 53, 30, 35, 100 and 55 (all in bounds, all initialised slots), and
    finds there the values the third refresh wrote,
    fourier_square(2 * 0.1 + linear * 0.01, 11). *)
Theorem dimensional_main_tomography (sin : float -> float) {RandState : Type}
    (rand : RandState -> Z * RandState) (g0 : Grid) (rs : RandState)
    (Hlen : length g0 = Z.to_nat ACTIVE_SIZE)
    (Hne : Forall (fun row : list SparseNode => row <> []) g0) :
  length (DimMain.dm_cycles (DimMain.nsigii_dimensional_main sin rand g0 rs)) = 3%nat /\
  DimMain.dm_tomography (DimMain.nsigii_dimensional_main sin rand g0 rs) =
  Some (map (fun '(perm, linear) =>
               (perm, linear,
                fourier_square sin (double_of_int 2 * 0.1 + double_of_int linear * 0.01)%float 11))
            [((5, 0, 3), 3); ((0, 5, 3), 53); ((5, 3, 0), 30);
             ((0, 3, 5), 35); ((3, 5, 0), 100); ((3, 0, 5), 55)]).
Proof.
  unfold DimMain.nsigii_dimensional_main.
  pose proof (init_red_slot sin rand g0 rs Hlen Hne 125 (5, 0, 3)
                ltac:(vm_compute; reflexivity)) as H125.
  pose proof (init_red_active sin rand g0 rs Hlen Hne) as Hact.
  revert H125 Hact. destruct (init_sparse_grid sin rand g0 rs) as [g1 rs1].
  cbn [fst]. intros H125 Hact. cbv beta iota zeta.
  split; [reflexivity|].
  destruct (run_cycles_last sin rand 2 g1 rs1 0) as (h & r & Hh & E). rewrite E.
  change (default g1 (co_grid <$> Some ?o)) with (co_grid o).
  assert (Hf2 : frames (co_grid (nsigii_verification_cycle sin rand h (0 + Z.of_nat 2) r)) =
                frames g1) by (rewrite refresh_frames; exact Hh).
  assert (Hidx : (get (co_grid (nsigii_verification_cycle sin rand h (0 + Z.of_nat 2) r)) 125 0).(idx) =
                 init_tomographic_index 5 0 3).
  { pose proof (frames_get _ _ 125 0 Hf2) as H. rewrite H125 in H.
    exact (f_equal (fun fr => fr.1.2) H). }
  assert (Hval : forall s : nat, (s < 249)%nat ->
    (get (co_grid (nsigii_verification_cycle sin rand h (0 + Z.of_nat 2) r)) s 0).(value) =
    fourier_square sin (double_of_int (0 + Z.of_nat 2) * 0.1 + double_of_int (Z.of_nat s) * 0.01)%float
      (HARMONICS + Z.rem (0 + Z.of_nat 2) 5)).
  { intros s Hs. rewrite refresh_value.
    pose proof (frames_get _ _ s 0 Hh) as H.
    assert (Ha : (get h s 0).(active) = true).
    { rewrite <- (Hact s Hs). exact (f_equal (fun fr => fr.1.1.1) H). }
    rewrite Ha. reflexivity. }
  revert Hidx Hval.
  generalize (co_grid (nsigii_verification_cycle sin rand h (0 + Z.of_nat 2) r)) as g2.
  intros g2 Hidx Hval.
  unfold DimMain.tomographic_verification.
  change (Z.to_nat (Z.quot ACTIVE_SIZE 2)) with 125%nat. change (ch_num RED) with 0%nat.
  rewrite Hidx.
  cbn -[get fourier_square double_of_int DimMain.tomo_linear].
  repeat match goal with |- context [DimMain.tomo_linear ?p] =>
    let v := eval vm_compute in (DimMain.tomo_linear p) in
    change (DimMain.tomo_linear p) with v end.
  cbn -[get fourier_square double_of_int].
  rewrite !Hval by lia. reflexivity.
Qed.

Lemma dimensional_main_tomography_witness :
  length (DimMain.dm_cycles
            (DimMain.nsigii_dimensional_main Libm.sin Glibc.rand zero_grid (Glibc.srand 1))) = 3%nat /\
  DimMain.dm_tomography (DimMain.nsigii_dimensional_main Libm.sin Glibc.rand zero_grid (Glibc.srand 1)) =
  Some (map (fun '(perm, linear) =>
               (perm, linear,
                fourier_square Libm.sin (double_of_int 2 * 0.1 + double_of_int linear * 0.01)%float 11))
            [((5, 0, 3), 3); ((0, 5, 3), 53); ((5, 3, 0), 30);
             ((0, 3, 5), 35); ((3, 5, 0), 100); ((3, 0, 5), 55)]).
Proof.
  apply (dimensional_main_tomography Libm.sin Glibc.rand zero_grid (Glibc.srand 1)).
  - reflexivity.
  - apply Forall_replicate. discriminate.
Defined.

End DimExtras.

(** * More facts on the minimal engine *)
Module MinMoreFacts.
Import Minimal MinFacts.

(** ** fourier_square_wave *)
Section Wave.
Context `{Float32Libm}.

Lemma wave_loop_fuel fuel : forall x h n r, h < n + 2 * Z.of_nat fuel ->
  wave_loop (S fuel) x h n r = wave_loop fuel x h n r.
Proof.
  induction fuel as [|f IH]; intros x h n r Hf; cbn [wave_loop].
  - destruct (Z.leb_spec n h); [lia|reflexivity].
  - destruct (Z.leb_spec n h); [|reflexivity]. apply IH. lia.
Qed.

Lemma wave_loop_fuel_add k fuel x h n r : h < n + 2 * Z.of_nat fuel ->
  wave_loop (k + fuel) x h n r = wave_loop fuel x h n r.
Proof.
  intros Hf. induction k as [|k IH]; [reflexivity|].
  cbn [Nat.add]. rewrite wave_loop_fuel by lia. exact IH.
Qed.

Lemma wave_loop_odd_bound fuel : forall x m n r, Z.Odd n ->
  wave_loop fuel x (2 * m) n r = wave_loop fuel x (2 * m - 1) n r.
Proof.
  induction fuel as [|f IH]; intros x m n r [q Hq]; cbn [wave_loop]; [reflexivity|].
  destruct (Z.leb_spec n (2 * m)), (Z.leb_spec n (2 * m - 1)); try lia.
  - apply IH. exists (q + 1). lia.
  - reflexivity.
Qed.

End Wave.

(** ** Navigation *)

Lemma rem10_up_down z : 0 <= z < 10 ->
  Z.rem (Z.rem (z + 1) 10 - 1 + 10) 10 = z /\ Z.rem (Z.rem (z - 1 + 10) 10 + 1) 10 = z.
Proof.
  intros Hz.
  assert (Hc : z = 0 \/ z = 1 \/ z = 2 \/ z = 3 \/ z = 4 \/ z = 5 \/ z = 6 \/ z = 7 \/
               z = 8 \/ z = 9) by lia.
  destruct Hc as [->|[->|[->|[->|[->|[->|[->|[->|[->| ->]]]]]]]]]; split; reflexivity.
Qed.

Lemma rem4_nat (i : nat) : (Z.rem (Z.of_nat i) SPARSE_FACTOR =? 0) = (i mod 4 =? 0)%nat.
Proof.
  unfold SPARSE_FACTOR. rewrite Z.rem_mod_nonneg by lia.
  pose proof (Nat2Z.inj_mod i 4) as Hm. cbn [Z.of_nat Pos.of_succ_nat Pos.succ] in Hm.
  destruct (Z.eqb_spec (Z.of_nat i mod 4) 0), (Nat.eqb_spec (i mod 4) 0);
    try reflexivity; exfalso; lia.
Qed.

Section Layout.
Context `{Float32}.

(** ** The init loop, slot by slot *)
Section Init.
Context {RandState : Type}.
Variable rand : RandState -> Z * RandState.

Lemma init_fold_layout n : (n <= 256)%nat -> forall g rs,
  length g.(red) = 256%nat -> length g.(green) = 256%nat -> length g.(blue) = 256%nat ->
  let g' := fst (foldl (init_slot rand) (g, rs) (seq 0 n)) in
  length g'.(red) = 256%nat /\ length g'.(green) = 256%nat /\ length g'.(blue) = 256%nat /\
  g'.(cyan) = g.(cyan) /\ g'.(active_count) = g.(active_count) + Z.of_nat ((n + 3) / 4) /\
  (forall i, (i < n)%nat -> slot_layout g' i) /\
  ((forall s, 0 <= fst (rand s)) -> forall i, (i < n)%nat -> slot_values g' i).
Proof.
  induction n as [|n IH]; intros Hn g rs Hr Hg Hb.
  - cbn. repeat split; try assumption; try lia; intros; lia.
  - rewrite seq_S, foldl_app. cbn [foldl Nat.add].
    destruct (IH ltac:(lia) g rs Hr Hg Hb) as (Hr1 & Hg1 & Hb1 & Hc1 & Hn1 & Hl1 & Hv1).
    destruct (foldl (init_slot rand) (g, rs) (seq 0 n)) as [g1 rs1]. cbn [fst] in *.
    unfold init_slot, rand_risk.
    destruct (rand rs1) as [rv s1] eqn:E1. destruct (rand s1) as [gv s2] eqn:E2.
    destruct (rand s2) as [bv s3] eqn:E3. destruct (rand s3) as [av s4] eqn:E4.
    destruct (rand s4) as [cv s5] eqn:E5. destruct (rand s5) as [sv s6] eqn:E6.
    cbn [fst red green blue cyan active_count]. rewrite !length_insert, rem4_nat.
    split; [exact Hr1|]. split; [exact Hg1|]. split; [exact Hb1|]. split; [exact Hc1|].
    split.
    { rewrite Hn1.
      pose proof (Nat.div_mod n 4 ltac:(lia)) as D0.
      pose proof (Nat.div_mod (n + 3) 4 ltac:(lia)) as D1.
      pose proof (Nat.div_mod (S (n + 3)) 4 ltac:(lia)) as D2.
      pose proof (Nat.mod_upper_bound n 4 ltac:(lia)).
      pose proof (Nat.mod_upper_bound (n + 3) 4 ltac:(lia)).
      pose proof (Nat.mod_upper_bound (S (n + 3)) 4 ltac:(lia)).
      destruct (Nat.eqb_spec (n mod 4) 0); lia. }
    split.
    + intros i Hi. destruct (Nat.eq_dec i n) as [->|Hne].
      * unfold slot_layout. cbn [red green blue].
        rewrite !list_lookup_insert_eq by lia.
        do 3 eexists. repeat split; reflexivity.
      * unfold slot_layout. cbn [red green blue].
        rewrite !list_lookup_insert_ne by lia. apply Hl1. lia.
    + intros Hrand i Hi. unfold slot_values. cbn [red green blue].
      destruct (Nat.eq_dec i n) as [->|Hne].
      * rewrite !list_lookup_insert_eq by lia.
        pose proof (Hrand rs1) as R1. pose proof (Hrand s1) as R2.
        pose proof (Hrand s2) as R3. rewrite E1 in R1. rewrite E2 in R2. rewrite E3 in R3.
        cbn [fst] in R1, R2, R3.
        intros m [Hm|[Hm|Hm]]; injection Hm as <-; cbn [value];
          apply Z.rem_bound_pos; lia.
      * rewrite !list_lookup_insert_ne by lia. apply (Hv1 Hrand). lia.
Qed.

(** What init_sparse_grid leaves in the grid, for arrays of 256 cells. *)
Lemma init_grid_shape (g0 : TomographicGrid) (rs : RandState) :
  length g0.(red) = 256%nat -> length g0.(green) = 256%nat -> length g0.(blue) = 256%nat ->
  let g := fst (init_sparse_grid rand g0 rs) in
  length g.(red) = 256%nat /\ length g.(green) = 256%nat /\ length g.(blue) = 256%nat /\
  g.(cyan) = combine_channels g0.(cyan) g.(red) g.(green) 256 /\
  g.(active_count) = 64 /\
  (forall i, (i < 256)%nat -> slot_layout g i) /\
  ((forall s, 0 <= fst (rand s)) -> forall i, (i < 256)%nat -> slot_values g i).
Proof.
  intros Hr Hg Hb. cbv zeta. unfold init_sparse_grid.
  change (Z.to_nat ACTIVE_SIZE) with 256%nat.
  pose proof (init_fold_layout 256 ltac:(lia)
    (mkGrid g0.(red) g0.(green) g0.(blue) g0.(cyan) 0) rs Hr Hg Hb) as Hf.
  cbv zeta in Hf.
  destruct (foldl (init_slot rand) (mkGrid g0.(red) g0.(green) g0.(blue) g0.(cyan) 0, rs)
              (seq 0 256)) as [g1 rs1].
  cbn [fst red green blue cyan active_count] in Hf |- *.
  destruct Hf as (Hr1 & Hg1 & Hb1 & Hc1 & Hn1 & Hl1 & Hv1).
  split; [exact Hr1|]. split; [exact Hg1|]. split; [exact Hb1|].
  split; [rewrite Hc1; reflexivity|]. split; [rewrite Hn1; reflexivity|].
  split; [exact Hl1|exact Hv1].
Qed.

End Init.

(** ** The packet loop, byte by byte *)

Lemma push_take data len v d' l' : length data = 256%nat ->
  push data len v = Some (d', l') ->
  l' = len + 1 /\ length d' = 256%nat /\ take (Z.to_nat l') d' = take (Z.to_nat len) data ++ [v].
Proof.
  intros Hd Hp. unfold push in Hp.
  destruct (Z.leb_spec 0 len), (Z.ltb_spec len PACKET_CAPACITY); cbn in Hp; try discriminate.
  rewrite PACKET_CAPACITY_eq in *.
  injection Hp as <- <-. rewrite length_insert. split; [reflexivity|]. split; [exact Hd|].
  rewrite Z2Nat.inj_add, Nat.add_1_r by lia.
  rewrite (take_S_r _ _ v) by (apply list_lookup_insert_eq; lia).
  rewrite take_insert. destruct (decide _); [lia|reflexivity].
Qed.

Lemma packet_step_bytes g idx data len p d' l' : length data = 256%nat ->
  packet_step g idx (Some (data, len)) p = Some (d', l') ->
  exists bs, sample_bytes g idx p = Some bs /\ length d' = 256%nat /\
    l' = len + Z.of_nat (length bs) /\ take (Z.to_nat l') d' = take (Z.to_nat len) data ++ bs.
Proof.
  intros Hd Hs. unfold packet_step in Hs. unfold sample_bytes.
  cbn [mbind option_bind] in Hs |- *.
  destruct (idx.(permutations) !! p) as [perm|]; cbn [mbind option_bind] in Hs |- *;
    [|discriminate].
  destruct (arr_get g.(red) (linear_index perm)) as [r|]; cbn [mbind option_bind] in Hs |- *;
    [|discriminate].
  destruct (active r).
  - destruct (push data len (value r)) as [[d1 l1]|] eqn:Ep; cbn [mbind option_bind] in Hs;
      [|discriminate].
    apply push_take in Ep as (-> & Hd1 & Ht1); [|exact Hd].
    destruct (arr_get g.(green) (linear_index perm)) as [gr|]; cbn [mbind option_bind] in Hs |- *;
      [|discriminate].
    destruct (active gr).
    + apply push_take in Hs as (-> & Hd2 & Ht2); [|exact Hd1].
      eexists. split; [reflexivity|]. split; [exact Hd2|]. cbn [length app].
      split; [lia|]. rewrite Ht2, Ht1, <- app_assoc. reflexivity.
    + injection Hs as <- <-. eexists. split; [reflexivity|]. split; [exact Hd1|].
      cbn [length app]. split; [lia|]. rewrite Ht1. reflexivity.
  - cbn [mbind option_bind] in Hs.
    destruct (arr_get g.(green) (linear_index perm)) as [gr|]; cbn [mbind option_bind] in Hs |- *;
      [|discriminate].
    destruct (active gr).
    + apply push_take in Hs as (-> & Hd2 & Ht2); [|exact Hd].
      eexists. split; [reflexivity|]. split; [exact Hd2|]. cbn [length app].
      split; [lia|]. exact Ht2.
    + injection Hs as <- <-. eexists. split; [reflexivity|]. split; [exact Hd|].
      cbn [length app]. split; [lia|]. rewrite app_nil_r. reflexivity.
Qed.

Lemma packet_fold_none g idx l : foldl (packet_step g idx) None l = None.
Proof. induction l as [|p l IH]; [reflexivity|]. exact IH. Qed.

Lemma packet_fold_bytes g idx l : forall data len d' l',
  length data = 256%nat -> foldl (packet_step g idx) (Some (data, len)) l = Some (d', l') ->
  exists bs, mapM (sample_bytes g idx) l = Some bs /\ length d' = 256%nat /\
    l' = len + Z.of_nat (length (concat bs)) /\
    take (Z.to_nat l') d' = take (Z.to_nat len) data ++ concat bs.
Proof.
  induction l as [|p l IH]; intros data len d' l' Hd Hf; cbn [foldl] in Hf.
  - injection Hf as <- <-. exists []. cbn [mapM concat length].
    split; [reflexivity|]. split; [exact Hd|]. split; [lia|]. rewrite app_nil_r. reflexivity.
  - destruct (packet_step g idx (Some (data, len)) p) as [[d1 l1]|] eqn:E1.
    + apply packet_step_bytes in E1 as (b1 & Hb1 & Hd1 & Hl1 & Ht1); [|exact Hd].
      destruct (IH d1 l1 d' l' Hd1 Hf) as (bs & Hbs & Hd2 & Hl2 & Ht2).
      exists (b1 :: bs). cbn [mapM]. rewrite Hb1, Hbs. cbn [mbind option_bind concat].
      split; [reflexivity|]. split; [exact Hd2|]. rewrite length_app.
      split; [lia|]. rewrite Ht2, Ht1, <- app_assoc. reflexivity.
    + rewrite packet_fold_none in Hf. discriminate.
Qed.

(** A protocol cycle that returns: its packet holds the sampled bytes. *)
Lemma protocol_cycle_bytes g idx res : nsigii_protocol_cycle g idx = Some res ->
  exists bs, mapM (sample_bytes g idx) (seq 0 6) = Some bs /\
    res.(packet_length) = Z.of_nat (length (concat bs)) /\
    take (Z.to_nat res.(packet_length)) res.(packet_data) = concat bs /\
    res.(packet_entropy) =
      (if res.(packet_length) >? 0
       then f32_div (foldl (fun s d => f32_add s (f32_of_int d)) f32_zero (concat bs))
                    (f32_of_int res.(packet_length))
       else f32_of_int 0).
Proof.
  intros Hres. unfold nsigii_protocol_cycle in Hres.
  destruct (build_packet g idx) as [[d l]|] eqn:Eb; cbn [mbind option_bind] in Hres;
    [|discriminate].
  destruct (governance_average g) as [v|]; cbn [mbind option_bind] in Hres; [|discriminate].
  injection Hres as <-. cbn [packet_length packet_data packet_entropy].
  unfold build_packet in Eb.
  destruct (packet_fold_bytes g idx (seq 0 6) packet_init 0 d l eq_refl Eb)
    as (bs & Hbs & _ & Hl & Ht).
  change (take (Z.to_nat 0) packet_init) with (@nil Z) in Ht. cbn [app] in Ht.
  exists bs. split; [exact Hbs|]. split; [lia|]. split; [exact Ht|].
  unfold packet_entropy_of. rewrite Ht. reflexivity.
Qed.

(** A protocol cycle on arrays of 256 cells at in-bounds permutations returns. *)
Lemma protocol_cycle_some g idx :
  (256 <= length g.(red))%nat -> (256 <= length g.(green))%nat ->
  length idx.(permutations) = 6%nat ->
  Forall (fun perm => 0 <= linear_index perm < ACTIVE_SIZE) idx.(permutations) ->
  exists res, nsigii_protocol_cycle g idx = Some res.
Proof.
  intros Hr Hg H6 Hp. unfold nsigii_protocol_cycle, build_packet.
  destruct (packet_loop_ok g idx Hr Hg Hp (seq 0 6) packet_init 0) as (d & l & E & _);
    [rewrite H6; apply Forall_seq; intros; lia|reflexivity|lia|vm_compute; discriminate|].
  rewrite E. cbn [mbind option_bind].
  rewrite governance_average_spec by (change (Z.to_nat ACTIVE_SIZE) with 256%nat; lia).
  cbn [mbind option_bind]. eexists. reflexivity.
Qed.

Lemma combine_channels_length cy red green n :
  length (combine_channels cy red green n) = length cy.
Proof.
  unfold combine_channels. generalize cy. induction (seq 0 n) as [|i l IH]; intros c;
    [reflexivity|].
  cbn [foldl]. rewrite IH. unfold combine_step.
  destruct (red !! i), (green !! i); try reflexivity.
  destruct (_ && _); [apply length_insert|reflexivity].
Qed.

End Layout.

(** Glibc's [rand] returns a non-negative number. *)
Lemma glibc_rand_nonneg s : 0 <= fst (Glibc.rand s).
Proof.
  unfold Glibc.rand, Glibc.step. cbn [fst]. apply Z.shiftr_nonneg.
  apply Z.mod_pos_bound. lia.
Qed.

(** ** observer_consume *)
Section Consume.
Context `{Float32Libm}.

Lemma channel_array_with_eq ch g a : channel_array ch (with_channel_array ch g a) = a.
Proof. destruct ch; reflexivity. Qed.

Lemma channel_array_with_ne ch ch' g a : ch' <> ch ->
  channel_array ch' (with_channel_array ch g a) = channel_array ch' g.
Proof. destruct ch, ch'; cbn; congruence. Qed.

Lemma active_count_with ch g a : (with_channel_array ch g a).(active_count) = g.(active_count).
Proof. destruct ch; reflexivity. Qed.

Lemma to_uint8_range d v : to_uint8 d = Some v -> 0 <= v < 256.
Proof.
  unfold to_uint8. destruct (double_trunc d) as [z|]; cbn [mbind option_bind]; [|discriminate].
  destruct (Z.leb_spec 0 z), (Z.ltb_spec z 256); cbn [andb]; try discriminate.
  intros Hv. injection Hv as <-. lia.
Qed.

Lemma observer_consume_inactive g idx obs ch node :
  arr_get (channel_array ch g) (linear_index (idx.(ti_i), idx.(ti_j), idx.(ti_k))) = Some node ->
  node.(active) = false -> observer_consume g idx obs ch = Some (g, obs).
Proof.
  intros Hn Ha. unfold observer_consume. rewrite Hn. cbn [mbind option_bind].
  rewrite Ha. reflexivity.
Qed.

End Consume.

End MinMoreFacts.

(** * Further properties of the minimal engine *)
Module MinExtras.
Import Minimal MinFacts MinMoreFacts.

(** fourier_square_wave: the loop only takes odd [n], so an even harmonic
    count [2m] gives exactly the value of [2m - 1], for every [float]
    arithmetic and [sinf]. *)
Theorem fourier_square_wave_even_harmonics `{Float32Libm} (x : f32) (m : Z) :
  fourier_square_wave x (2 * m) = fourier_square_wave x (2 * m - 1).
Proof.
  unfold fourier_square_wave. do 3 f_equal.
  rewrite wave_loop_odd_bound by (exists 0; lia).
  replace (Z.to_nat (2 * m) + 1)%nat
    with ((Z.to_nat (2 * m) - Z.to_nat (2 * m - 1)) + (Z.to_nat (2 * m - 1) + 1))%nat by lia.
  apply wave_loop_fuel_add. lia.
Qed.

(** handle_trident_event: on a triple whose i and j lie in [0, 10), DOWN
    undoes UP, UP undoes DOWN, LEFT undoes RIGHT and RIGHT undoes LEFT;
    the grid argument plays no part. *)
Theorem trident_moves_invert {G : Type} (grid : G) (idx : TomographicIndex)
    (Hi : 0 <= idx.(ti_i) < 10) (Hj : 0 <= idx.(ti_j) < 10) :
  handle_trident_event EVENT_DOWN grid (handle_trident_event EVENT_UP grid idx) = idx /\
  handle_trident_event EVENT_UP grid (handle_trident_event EVENT_DOWN grid idx) = idx /\
  handle_trident_event EVENT_LEFT grid (handle_trident_event EVENT_RIGHT grid idx) = idx /\
  handle_trident_event EVENT_RIGHT grid (handle_trident_event EVENT_LEFT grid idx) = idx.
Proof.
  destruct idx as [i j k p]. cbn [ti_i ti_j] in Hi, Hj.
  destruct (rem10_up_down i Hi) as [Hi1 Hi2], (rem10_up_down j Hj) as [Hj1 Hj2].
  cbn [handle_trident_event]. rewrite Hi1, Hi2, Hj1, Hj2. repeat split.
Qed.

Lemma trident_moves_invert_witness :
  (0 <= 9 < 10 /\ 0 <= 0 < 10) /\
  let idx := init_tomographic_index 9 0 4 in
  handle_trident_event EVENT_DOWN tt (handle_trident_event EVENT_UP tt idx) = idx /\
  handle_trident_event EVENT_UP tt (handle_trident_event EVENT_DOWN tt idx) = idx /\
  handle_trident_event EVENT_LEFT tt (handle_trident_event EVENT_RIGHT tt idx) = idx /\
  handle_trident_event EVENT_RIGHT tt (handle_trident_event EVENT_LEFT tt idx) = idx.
Proof.
  split; [split; lia|]. cbv zeta.
  apply (trident_moves_invert tt (init_tomographic_index 9 0 4)); cbn [ti_i ti_j init_tomographic_index]; lia.
Defined.

(** init_sparse_grid, on any previous contents of arrays of ACTIVE_SIZE
    cells and for any [rand]: 64 cells are counted active; slot [i] of
    RED, GREEN and BLUE is active exactly when i mod 4 = 0, the three
    cells are tagged RED, GREEN, BLUE with polarities 1, -1, 0 and share
    one governance vector; when [rand] returns non-negative numbers the
    values are bytes. *)
Theorem init_sparse_grid_layout `{Float32} {RandState : Type}
    (rand : RandState -> Z * RandState) (g0 : TomographicGrid) (rs : RandState)
    (Hr : length g0.(red) = 256%nat) (Hg : length g0.(green) = 256%nat)
    (Hb : length g0.(blue) = 256%nat) :
  let g := fst (init_sparse_grid rand g0 rs) in
  g.(active_count) = 64 /\
  (forall i, (i < 256)%nat -> slot_layout g i) /\
  ((forall s, 0 <= fst (rand s)) -> forall i, (i < 256)%nat -> slot_values g i).
Proof.
  destruct (init_grid_shape rand g0 rs Hr Hg Hb) as (_ & _ & _ & _ & Hn & Hl & Hv).
  exact (conj Hn (conj Hl Hv)).
Qed.

Lemma init_sparse_grid_layout_witness :
  (length zero_grid.(red) = 256%nat /\ length zero_grid.(green) = 256%nat /\
   length zero_grid.(blue) = 256%nat) /\
  let g := fst (init_sparse_grid Glibc.rand zero_grid (Glibc.srand 1)) in
  g.(active_count) = 64 /\
  (forall i, (i < 256)%nat -> slot_layout g i) /\
  ((forall s, 0 <= fst (Glibc.rand s)) -> forall i, (i < 256)%nat -> slot_values g i).
Proof.
  split; [repeat split|].
  apply (init_sparse_grid_layout Glibc.rand zero_grid (Glibc.srand 1)); reflexivity.
Defined.

(** init_sparse_grid: the CYAN array keeps its length; slot [i] holds
    the combination of RED[i] and GREEN[i] when i mod 4 = 0 and keeps
    its previous contents otherwise. *)
Theorem init_cyan_slots `{Float32} {RandState : Type}
    (rand : RandState -> Z * RandState) (g0 : TomographicGrid) (rs : RandState)
    (Hr : length g0.(red) = 256%nat) (Hg : length g0.(green) = 256%nat)
    (Hb : length g0.(blue) = 256%nat) (Hc : length g0.(cyan) = 256%nat) :
  let g := fst (init_sparse_grid rand g0 rs) in
  length g.(cyan) = 256%nat /\
  forall i r gr c, g.(red) !! i = Some r -> g.(green) !! i = Some gr ->
    g0.(cyan) !! i = Some c ->
    g.(cyan) !! i = Some (if (i mod 4 =? 0)%nat then combine_node r gr else c).
Proof.
  pose proof (init_grid_shape rand g0 rs Hr Hg Hb) as Hs. cbv zeta in Hs |- *.
  revert Hs. generalize (fst (init_sparse_grid rand g0 rs)) as g.
  intros g (Hr1 & Hg1 & _ & Hcy & _ & Hl & _). rewrite Hcy.
  split; [rewrite combine_channels_length; exact Hc|].
  intros i r gr c Hri Hgi Hci.
  assert (Hi : (i < 256)%nat) by (rewrite <- Hr1; eapply lookup_lt_Some; exact Hri).
  destruct (Hl i Hi) as (r' & gr' & b' & Hr' & Hg' & _ & Ha & Hga & _).
  rewrite Hri in Hr'. injection Hr' as <-. rewrite Hgi in Hg'. injection Hg' as <-.
  rewrite (combine_channels_lookup _ _ _ _ _ r gr c Hi Hri Hgi Hci), Hga, Ha.
  destruct (i mod 4 =? 0)%nat; reflexivity.
Qed.

Lemma init_cyan_slots_witness :
  (length zero_grid.(red) = 256%nat /\ length zero_grid.(green) = 256%nat /\
   length zero_grid.(blue) = 256%nat /\ length zero_grid.(cyan) = 256%nat) /\
  let g := fst (init_sparse_grid Glibc.rand zero_grid (Glibc.srand 1)) in
  length g.(cyan) = 256%nat /\
  forall i r gr c, g.(red) !! i = Some r -> g.(green) !! i = Some gr ->
    zero_grid.(cyan) !! i = Some c ->
    g.(cyan) !! i = Some (if (i mod 4 =? 0)%nat then combine_node r gr else c).
Proof.
  split; [repeat split|].
  apply (init_cyan_slots Glibc.rand zero_grid (Glibc.srand 1)); reflexivity.
Defined.

(** nsigii_protocol_cycle: when it returns, the packet holds exactly the
    bytes of the six permutations in order (RED then GREEN at each slot,
    each when active), its length is their number, and the entropy is
    their float sum divided by that number (0 for an empty packet). *)
Theorem protocol_packet_contents `{Float32} (g : TomographicGrid) (idx : TomographicIndex)
    (res : ProtocolOut) (Hres : nsigii_protocol_cycle g idx = Some res) :
  exists bs, mapM (sample_bytes g idx) (seq 0 6) = Some bs /\
    res.(packet_length) = Z.of_nat (length (concat bs)) /\
    take (Z.to_nat res.(packet_length)) res.(packet_data) = concat bs /\
    res.(packet_entropy) =
      (if res.(packet_length) >? 0
       then f32_div (foldl (fun s d => f32_add s (f32_of_int d)) f32_zero (concat bs))
                    (f32_of_int res.(packet_length))
       else f32_of_int 0).
Proof. exact (protocol_cycle_bytes g idx res Hres). Qed.

Lemma protocol_packet_contents_witness :
  let g := fst (init_sparse_grid Glibc.rand zero_grid (Glibc.srand 1)) in
  let idx := init_tomographic_index 1 1 0 in
  exists res, nsigii_protocol_cycle g idx = Some res /\
  exists bs, mapM (sample_bytes g idx) (seq 0 6) = Some bs /\
    res.(packet_length) = Z.of_nat (length (concat bs)) /\
    take (Z.to_nat res.(packet_length)) res.(packet_data) = concat bs /\
    res.(packet_entropy) =
      (if res.(packet_length) >? 0
       then f32_div (foldl (fun s d => f32_add s (f32_of_int d)) f32_zero (concat bs))
                    (f32_of_int res.(packet_length))
       else f32_of_int 0).
Proof.
  cbv zeta.
  destruct (nsigii_protocol_cycle (fst (init_sparse_grid Glibc.rand zero_grid (Glibc.srand 1)))
              (init_tomographic_index 1 1 0)) as [res|] eqn:E.
  - exists res. split; [reflexivity|]. exact (protocol_packet_contents _ _ res E).
  - vm_compute in E. discriminate.
Defined.

(** observer_consume: when it returns, the other channels' arrays, the
    active count and the observer's position are unchanged, and the cell
    at the index's linear slot exists; if it is inactive nothing changes,
    otherwise only its value is rewritten, with a byte, and the
    observation time advances by 0.1f. *)
Theorem observer_consume_frame `{Float32Libm} (g : TomographicGrid) (idx : TomographicIndex)
    (obs : Observer) (ch : DataChannel) (g' : TomographicGrid) (obs' : Observer)
    (Hc : observer_consume g idx obs ch = Some (g', obs')) :
  let lin := linear_index (idx.(ti_i), idx.(ti_j), idx.(ti_k)) in
  (forall ch', ch' <> ch -> channel_array ch' g' = channel_array ch' g) /\
  g'.(active_count) = g.(active_count) /\ obs'.(position) = obs.(position) /\
  exists node, arr_get (channel_array ch g) lin = Some node /\
    ((node.(active) = false /\ g' = g /\ obs' = obs) \/
     (node.(active) = true /\
      exists v, 0 <= v < 256 /\
        channel_array ch g' =
          <[Z.to_nat lin := mkNode v true node.(vector) node.(channel) node.(polarity)]>
            (channel_array ch g) /\
        obs'.(observation_time) = f32_add obs.(observation_time) f32_0_1)).
Proof.
  cbv zeta. unfold observer_consume in Hc. cbv zeta in Hc.
  destruct (arr_get (channel_array ch g) (linear_index (ti_i idx, ti_j idx, ti_k idx)))
    as [node|] eqn:En; cbn [mbind option_bind] in Hc; [|discriminate].
  destruct (active node) eqn:Ea.
  - destruct (to_uint8 _) as [v|] eqn:Ev; cbn [mbind option_bind] in Hc; [|discriminate].
    injection Hc as <- <-. apply to_uint8_range in Ev.
    split; [intros ch' Hne; apply channel_array_with_ne; exact Hne|].
    split; [apply active_count_with|]. split; [reflexivity|].
    exists node. split; [reflexivity|]. right. split; [exact Ea|].
    exists v. split; [exact Ev|]. split; [|reflexivity].
    rewrite channel_array_with_eq, (Z.rem_small v 256) by lia. reflexivity.
  - injection Hc as <- <-. split; [reflexivity|]. split; [reflexivity|].
    split; [reflexivity|]. exists node. split; [reflexivity|]. left. auto.
Qed.

Lemma observer_consume_frame_witness :
  let g := fst (init_sparse_grid Glibc.rand zero_grid (Glibc.srand 1)) in
  let idx := init_tomographic_index 0 0 0 in
  let obs := mkObserver 0 f32_zero in
  exists g' obs', observer_consume g idx obs RED_CHANNEL = Some (g', obs') /\
  let lin := linear_index (idx.(ti_i), idx.(ti_j), idx.(ti_k)) in
  (forall ch', ch' <> RED_CHANNEL -> channel_array ch' g' = channel_array ch' g) /\
  g'.(active_count) = g.(active_count) /\ obs'.(position) = obs.(position) /\
  exists node, arr_get (channel_array RED_CHANNEL g) lin = Some node /\
    ((node.(active) = false /\ g' = g /\ obs' = obs) \/
     (node.(active) = true /\
      exists v, 0 <= v < 256 /\
        channel_array RED_CHANNEL g' =
          <[Z.to_nat lin := mkNode v true node.(vector) node.(channel) node.(polarity)]>
            (channel_array RED_CHANNEL g) /\
        obs'.(observation_time) = f32_add obs.(observation_time) f32_0_1)).
Proof.
  cbv zeta.
  destruct (observer_consume (fst (init_sparse_grid Glibc.rand zero_grid (Glibc.srand 1)))
              (init_tomographic_index 0 0 0) (mkObserver 0 f32_zero) RED_CHANNEL)
    as [[g' obs']|] eqn:E.
  - exists g', obs'. split; [reflexivity|].
    exact (observer_consume_frame _ _ _ _ g' obs' E).
  - vm_compute in E. discriminate.
Defined.

(** main of the minimal engine, on any previous contents of arrays of
    ACTIVE_SIZE cells whose CYAN slot 110 is inactive, for any [float]
    arithmetic and [rand]: the events move the index to (1,1,0) for the
    one ENTER, whose protocol cycle packs RED[0] and GREEN[0] six times
    (12 bytes, the permutations of (0,0,0) all being slot 0); the four
    consumptions at slot 110 find inactive cells and change nothing; the
    run ends at (0,0,9) with the grid init_sparse_grid made. *)
Theorem minimal_main_run `{Float32Libm} {RandState : Type}
    (rand : RandState -> Z * RandState) (g0 : TomographicGrid) (rs : RandState)
    (Hr : length g0.(red) = 256%nat) (Hg : length g0.(green) = 256%nat)
    (Hb : length g0.(blue) = 256%nat)
    (Hcy : exists c, g0.(cyan) !! 110%nat = Some c /\ c.(active) = false) :
  let g := fst (init_sparse_grid rand g0 rs) in
  exists out r gr,
    nsigii_minimal_main rand g0 rs =
      Some (mkMain g (mkIndex 0 0 9 (replicate 6 (0, 0, 0))) (mkObserver 0 f32_zero) [out]) /\
    g.(red) !! 0%nat = Some r /\ g.(green) !! 0%nat = Some gr /\
    out.(packet_length) = 12 /\
    take 12 out.(packet_data) = concat (replicate 6 [r.(value); gr.(value)]).
Proof.
  destruct Hcy as (c & Hc & Hca).
  pose proof (init_grid_shape rand g0 rs Hr Hg Hb) as Hs.
  unfold nsigii_minimal_main. cbv zeta in Hs |- *.
  revert Hs. generalize (fst (init_sparse_grid rand g0 rs)) as g.
  intros g (Hr1 & Hg1 & _ & Hcy1 & _ & Hl & _).
  destruct (Hl 0%nat ltac:(lia)) as (r & gr & b & Hr0 & Hg0 & _ & Ha0 & Hga0 & _).
  destruct (Hl 110%nat ltac:(lia)) as (r' & gr' & b' & Hr' & Hg' & Hb' & Ha' & Hga' & Hba' & _).
  change ((0 mod 4 =? 0)%nat) with true in Ha0.
  change ((110 mod 4 =? 0)%nat) with false in Ha'.
  assert (Hc' : g.(cyan) !! 110%nat = Some c).
  { rewrite Hcy1, (combine_channels_lookup (cyan g0) (red g) (green g) 256 110 r' gr' c ltac:(lia) Hr' Hg' Hc), Hga', Ha'.
    reflexivity. }
  set (obs0 := mkObserver 0 f32_zero).
  destruct (protocol_cycle_some g (mkIndex 1 1 0 (replicate 6 (0, 0, 0))))
    as [out Hout]; [lia|lia|reflexivity| |].
  { apply Forall_replicate.
    exact (proj2 (linear_index_bounds 0 0 0 ltac:(lia) ltac:(lia) ltac:(lia)
                    ltac:(unfold INT_MAX; lia))). }
  exists out, r, gr.
  assert (Henter : main_step (Some (mkMain g (mkIndex 1 1 0 (replicate 6 (0, 0, 0))) obs0 []))
                     EVENT_ENTER =
                   Some (mkMain g (mkIndex 1 1 0 (replicate 6 (0, 0, 0))) obs0 [out])).
  { unfold main_step. cbn [mbind option_bind ms_grid ms_idx ms_observer ms_cycles].
    cbn [handle_trident_event]. rewrite Hout. cbn [mbind option_bind].
    rewrite (observer_consume_inactive g _ obs0 RED_CHANNEL r') by (exact Hr' || rewrite Ha'; reflexivity).
    cbn [mbind option_bind].
    rewrite (observer_consume_inactive g _ obs0 GREEN_CHANNEL gr') by (exact Hg' || rewrite Hga', Ha'; reflexivity).
    cbn [mbind option_bind].
    rewrite (observer_consume_inactive g _ obs0 BLUE_CHANNEL b') by (exact Hb' || rewrite Hba', Ha'; reflexivity).
    cbn [mbind option_bind].
    rewrite (observer_consume_inactive g _ obs0 CYAN_CHANNEL c) by (exact Hc' || exact Hca).
    reflexivity. }
  split; [|split; [exact Hr0|split; [exact Hg0|]]].
  - unfold main_events. cbn [foldl].
    change (main_step (main_step (main_step (Some (mkMain g (init_tomographic_index 0 0 0) obs0 []))
              EVENT_START) EVENT_RIGHT) EVENT_UP)
      with (Some (mkMain g (mkIndex 1 1 0 (replicate 6 (0, 0, 0))) obs0 [])).
    rewrite Henter. reflexivity.
  - destruct (protocol_cycle_bytes g _ out Hout) as (bs & Hbs & Hlen & Htake & _).
    assert (Hsb : forall p, (p < 6)%nat ->
      sample_bytes g (mkIndex 1 1 0 (replicate 6 (0, 0, 0))) p = Some [r.(value); gr.(value)]).
    { intros p Hp. unfold sample_bytes. cbn [permutations].
      rewrite lookup_replicate_2 by exact Hp. cbn [mbind option_bind].
      change (arr_get (red g) (linear_index (0, 0, 0))) with (red g !! 0%nat).
      change (arr_get (green g) (linear_index (0, 0, 0))) with (green g !! 0%nat).
      rewrite Hr0, Hg0. cbn [mbind option_bind]. rewrite Hga0, Ha0. reflexivity. }
    assert (Hm : mapM (sample_bytes g (mkIndex 1 1 0 (replicate 6 (0, 0, 0)))) (seq 0 6) =
                 Some (replicate 6 [r.(value); gr.(value)])).
    { cbn [seq mapM]. rewrite !Hsb by lia. reflexivity. }
    rewrite Hm in Hbs. injection Hbs as <-.
    split; [rewrite Hlen; reflexivity|]. rewrite Hlen in Htake. exact Htake.
Qed.

Lemma minimal_main_run_witness :
  (length zero_grid.(red) = 256%nat /\ length zero_grid.(green) = 256%nat /\
   length zero_grid.(blue) = 256%nat /\
   exists c, zero_grid.(cyan) !! 110%nat = Some c /\ c.(active) = false) /\
  let g := fst (init_sparse_grid Glibc.rand zero_grid (Glibc.srand 1)) in
  exists out r gr,
    nsigii_minimal_main Glibc.rand zero_grid (Glibc.srand 1) =
      Some (mkMain g (mkIndex 0 0 9 (replicate 6 (0, 0, 0))) (mkObserver 0 f32_zero) [out]) /\
    g.(red) !! 0%nat = Some r /\ g.(green) !! 0%nat = Some gr /\
    out.(packet_length) = 12 /\
    take 12 out.(packet_data) = concat (replicate 6 [r.(value); gr.(value)]).
Proof.
  split; [repeat split; exists zero_node; split; reflexivity|].
  apply (minimal_main_run Glibc.rand zero_grid (Glibc.srand 1)); try reflexivity.
  exists zero_node. split; reflexivity.
Defined.

End MinExtras.
